(** * Distributed MNIST training script (main.py): model and properties

    The script is orchestration over framework objects: a
    [DistributedSampler] that partitions the training indices, two
    [DataLoader]s, a [DistributedDataParallel] wrapper around a small
    [nn.Sequential] model, an [optim.SGD] optimizer and the epoch/batch loops
    of [main].  The framework objects the script instantiates are embedded
    with the behaviour of the framework classes at the arguments the script
    passes (defaults otherwise); pseudo-random permutations, forward passes
    and differentiation are injected capabilities. *)

From Stdlib Require Import Arith ZArith QArith Qabs Lia Lqa List Permutation Bool.
From Stdlib Require Import Floats Uint63 Strings.String DecimalString.
From stdpp Require Import base list.

Close Scope Q_scope.
Close Scope Z_scope.

Set Default Proof Using "Type".

(** ** Random sources *)

(** [torch.randperm(n, generator=g)] after [g.manual_seed(s)]: some
    permutation of [0, n) determined by the seed; [draw_seed] is the draw of
    a fresh seed from the process-wide generator state [Rng]. *)
Class RandomSource := {
  Rng : Type;
  draw_seed : Rng -> nat * Rng;
  randperm : nat -> nat -> list nat;
  randperm_perm : forall s n, Permutation (randperm s n) (seq 0 n)
}.

(** ** Index arithmetic and list slicing *)

(** [math.ceil(a / b)] on non-negative integers. *)
Definition ceil_div (a b : nat) : nat := (a + b - 1) / b.

(** Python's [l * k] on lists. *)
Fixpoint list_times {A} (l : list A) (k : nat) : list A :=
  match k with
  | 0 => []
  | S k' => l ++ list_times l k'
  end.

(** [l[start::step]] for [step >= 1]: [skip] counts the elements still to be
    passed over before the next one is taken. *)
Fixpoint every_nth {A} (step skip : nat) (l : list A) : list A :=
  match l with
  | [] => []
  | x :: l' =>
      match skip with
      | 0 => x :: every_nth step (step - 1) l'
      | S k => every_nth step k l'
      end
  end.

(** [l[start:stop:step]]. *)
Definition slice_step {A} (start stop step : nat) (l : list A) : list A :=
  every_nth step start (firstn stop l).

(** ** DistributedSampler *)

Record DistributedSampler := {
  dataset_len : nat;
  num_replicas : nat;
  rank : nat;
  epoch : nat;
  drop_last : bool;
  shuffle : bool;
  seed : nat
}.

Definition set_epoch (s : DistributedSampler) (e : nat) : DistributedSampler :=
  {| dataset_len := dataset_len s; num_replicas := num_replicas s;
     rank := rank s; epoch := e; drop_last := drop_last s;
     shuffle := shuffle s; seed := seed s |}.

Definition num_samples (s : DistributedSampler) : nat :=
  if drop_last s && negb (dataset_len s mod num_replicas s =? 0)
  then ceil_div (dataset_len s - num_replicas s) (num_replicas s)
  else ceil_div (dataset_len s) (num_replicas s).

Definition total_size (s : DistributedSampler) : nat :=
  num_samples s * num_replicas s.

(** [DistributedSampler(dataset, shuffle=True, seed=sd)] in a group of [w]
    processes, on the process of rank [r], for a dataset of [n] items. *)
Definition new_sampler (n w r sd : nat) : DistributedSampler :=
  {| dataset_len := n; num_replicas := w; rank := r; epoch := 0;
     drop_last := false; shuffle := true; seed := sd |}.

Section Sampling.
Context `{RS : RandomSource}.

(** The index list before subsampling: the epoch's permutation, padded
    with its own head up to [total_size], or cut to it. *)
Definition padded_indices (s : DistributedSampler) : list nat :=
  let indices :=
    if shuffle s then randperm (seed s + epoch s) (dataset_len s)
    else seq 0 (dataset_len s) in
  if negb (drop_last s) then
    let padding_size := total_size s - length indices in
    if padding_size <=? length indices
    then indices ++ firstn padding_size indices
    else indices ++
         firstn padding_size
           (list_times indices (ceil_div padding_size (length indices)))
  else firstn (total_size s) indices.

(** [DistributedSampler.__iter__]. *)
Definition sampler_iter (s : DistributedSampler) : list nat :=
  slice_step (rank s) (total_size s) (num_replicas s) (padded_indices s).

(** The indices a sampler yields in epoch [e], that is after
    [set_epoch(e)]. *)
Definition epoch_indices (s : DistributedSampler) (e : nat) : list nat :=
  sampler_iter (set_epoch s e).

(** ** BatchSampler and DataLoader *)

(** [BatchSampler.__iter__] with [drop_last=False]: indices are appended to
    the current batch, which is emitted when it reaches [batch_size]; a
    non-empty remainder is emitted at the end. *)
Fixpoint batch_sampler (batch_size : nat) (cur : list nat) (l : list nat)
  : list (list nat) :=
  match l with
  | [] => match cur with [] => [] | _ => [cur] end
  | i :: l' =>
      let cur' := cur ++ [i] in
      if length cur' =? batch_size
      then cur' :: batch_sampler batch_size [] l'
      else batch_sampler batch_size cur' l'
  end.

Record DataLoader := {
  loader_len : nat;                       (* len(dataset) *)
  batch_size : nat;
  loader_shuffle : bool;
  sampler : option DistributedSampler
}.

(** One pass over a loader: the batches of dataset indices, and the
    process-wide generator state afterwards.  With an explicit sampler the
    order is the sampler's; with [shuffle=True] a [RandomSampler] seeds a
    private generator from the process-wide one.  (The seed a loader draws
    for worker subprocesses plays no part with [num_workers=0] and is left
    out.) *)
Definition loader_iter (dl : DataLoader) (g : Rng) : list (list nat) * Rng :=
  match sampler dl with
  | Some s => (batch_sampler (batch_size dl) [] (sampler_iter s), g)
  | None =>
      if loader_shuffle dl then
        let '(sd, g') := draw_seed g in
        (batch_sampler (batch_size dl) [] (randperm sd (loader_len dl)), g')
      else (batch_sampler (batch_size dl) [] (seq 0 (loader_len dl)), g)
  end.

(** ** create_data_loaders *)

(** [train_len], [test_len] are the sizes of the two MNIST splits (positive:
    loading an empty split fails before any loader is built);
    [world_size] and [rk] are what the process group reports, which the
    sampler reads because [num_replicas] and [rank] are not passed. *)
Definition create_data_loaders (bs train_len test_len world_size rk : nat)
  : DataLoader * DataLoader * DistributedSampler :=
  let smp := new_sampler train_len world_size rk 42 in
  let train_loader := {| loader_len := train_len; batch_size := bs;
                         loader_shuffle := false; sampler := Some smp |} in
  let test_loader := {| loader_len := test_len; batch_size := bs;
                        loader_shuffle := true; sampler := None |} in
  (train_loader, test_loader, smp).

End Sampling.


(** ** Scalars

    The loops are written once over the arithmetic of the run: IEEE binary64
    ([float_arith], what the interpreter computes with) or exact rationals
    ([Q_arith], for statements about the ideal values). *)
Class Arith (num : Type) := {
  nzero : num;
  nadd : num -> num -> num;
  nsub : num -> num -> num;
  nmul : num -> num -> num;
  ndiv : num -> num -> num;
  nneg : num -> num;
  nof_nat : nat -> num;
  nis_zero : num -> bool;
  nfinite : num -> bool;
  nis_zero_zero : nis_zero nzero = true
}.

Definition float_of_nat (n : nat) : float :=
  PrimFloat.of_uint63 (Uint63.of_Z (Z.of_nat n)).

#[export] Instance float_arith : Arith float := {|
  nzero := PrimFloat.zero;
  nadd := PrimFloat.add;
  nsub := PrimFloat.sub;
  nmul := PrimFloat.mul;
  ndiv := PrimFloat.div;
  nneg := PrimFloat.opp;
  nof_nat := float_of_nat;
  nis_zero := PrimFloat.is_zero;
  nfinite := PrimFloat.is_finite;
  nis_zero_zero := eq_refl
|}.

#[export] Instance Q_arith : Arith Q := {|
  nzero := 0%Q;
  nadd := Qplus;
  nsub := Qminus;
  nmul := Qmult;
  ndiv := Qdiv;
  nneg := Qopp;
  nof_nat := fun n => inject_Z (Z.of_nat n);
  nis_zero := fun q => Qeq_bool q 0%Q;
  nfinite := fun _ => true;
  nis_zero_zero := eq_refl
|}.

(** ** Modules and their parameters

    A parameter is a reference into the process's tensor store, so that the
    wrapper, the wrapped module and the optimizer all see one tensor. *)
#[warnings="-register-all"]
Inductive Module :=
| Linear (in_features out_features : nat) (weight : nat) (bias : option nat)
| ReLU
| Dropout (p : Q)
| Sequential (children : list Module)
| DistributedDataParallel (module : Module).

Definition join_name (prefix name : string) : string :=
  match prefix with
  | EmptyString => name
  | _ => String.append prefix (String.append "." name)
  end.

Definition index_name (k : nat) : string :=
  NilEmpty.string_of_uint (Nat.to_uint k).

(** [Module.named_parameters(prefix)]: own parameters first, then the
    children's under their attribute names. *)
Fixpoint named_parameters (prefix : string) (m : Module) : list (string * nat) :=
  match m with
  | Linear _ _ w b =>
      (join_name prefix "weight", w) ::
      match b with
      | Some b' => [(join_name prefix "bias", b')]
      | None => []
      end
  | ReLU => []
  | Dropout _ => []
  | Sequential ms =>
      (fix go (k : nat) (l : list Module) : list (string * nat) :=
         match l with
         | [] => []
         | c :: l' =>
             named_parameters (join_name prefix (index_name k)) c ++ go (S k) l'
         end) 0 ms
  | DistributedDataParallel c => named_parameters (join_name prefix "module") c
  end.

(** [Module.parameters()]. *)
Definition parameters (m : Module) : list nat :=
  map snd (named_parameters "" m).

(** [wrapper.module]; absent on an unwrapped module. *)
Definition module_attr (m : Module) : option Module :=
  match m with
  | DistributedDataParallel c => Some c
  | _ => None
  end.

(** ** create_model *)
Definition create_model : Module :=
  Sequential [ Linear (28 * 28) 128 0 (Some 1);
               ReLU;
               Dropout (2 # 10);
               Linear 128 128 2 (Some 3);
               ReLU;
               Linear 128 10 4 None ].

Section Training.
Context {num : Type} {AR : Arith num}.

Definition Tensor : Type := list num.

(** [Module.state_dict()]: parameter names with the tensors they refer to. *)
Definition state_dict (m : Module) (store : list Tensor)
  : list (string * Tensor) :=
  omap (fun '(name, i) => (fun t => (name, t)) <$> store !! i)
       (named_parameters "" m).

(** [Module.load_state_dict(sd)] with the default [strict=True]: fails on any
    missing or unexpected key. *)
Definition load_state_dict (m : Module) (sd : list (string * Tensor))
  : option (list (string * Tensor)) :=
  let expected := map fst (named_parameters "" m) in
  let given := map fst sd in
  let missing := List.filter (fun k => negb (existsb (String.eqb k) given)) expected in
  let unexpected := List.filter (fun k => negb (existsb (String.eqb k) expected)) given in
  match missing, unexpected with
  | [], [] => Some sd
  | _, _ => None
  end.

(** ** optim.SGD *)

(** [t.add(other, alpha=a)], the product and the sum each computed in the
    arithmetic of the run. *)
Definition tensor_add (t : Tensor) (a : num) (other : Tensor) : Tensor :=
  zip_with (fun x y => nadd x (nmul a y)) t other.

Definition tensor_mul (t : Tensor) (a : num) : Tensor :=
  map (fun x => nmul x a) t.

Record SGD := {
  params : list nat;
  lr : num;
  momentum : num;
  dampening : num;
  weight_decay : num;
  nesterov : bool;
  maximize : bool;
  momentum_buffer : list (nat * Tensor)
}.

(** [optim.SGD(params, lr=lr)]: every other hyperparameter at its default. *)
Definition optim_SGD (ps : list nat) (rate : num) : SGD :=
  {| params := ps; lr := rate; momentum := nzero; dampening := nzero;
     weight_decay := nzero; nesterov := false; maximize := false;
     momentum_buffer := [] |}.

Definition lookup_buffer (i : nat) (bufs : list (nat * Tensor)) : option Tensor :=
  snd <$> find (fun e => fst e =? i) bufs.

(** The update of one parameter [p] with gradient [g]: the new value and the
    momentum buffer to remember, if momentum is in use. *)
Definition sgd_update (o : SGD) (p g : Tensor) (buf : option Tensor)
  : Tensor * option Tensor :=
  let g1 := if maximize o then map nneg g else g in
  let g2 := if nis_zero (weight_decay o) then g1
            else tensor_add g1 (weight_decay o) p in
  if nis_zero (momentum o) then (tensor_add p (nneg (lr o)) g2, buf)
  else
    let b := match buf with
             | None => g2
             | Some b0 =>
                 tensor_add (tensor_mul b0 (momentum o))
                            (nsub (nof_nat 1) (dampening o)) g2
             end in
    let g3 := if nesterov o then tensor_add g2 (momentum o) b else b in
    (tensor_add p (nneg (lr o)) g3, Some b).

(** [optimizer.step()]: every optimised parameter that has a gradient is
    updated in place. *)
Definition sgd_step (o : SGD) (grads : list Tensor) (store : list Tensor)
  : list Tensor * SGD :=
  fold_left
    (fun '(st, o') i =>
       match st !! i, grads !! i with
       | Some p, Some g =>
           let '(p', b) := sgd_update o' p g (lookup_buffer i (momentum_buffer o')) in
           (<[i := p']> st,
            match b with
            | Some b' =>
                {| params := params o'; lr := lr o'; momentum := momentum o';
                   dampening := dampening o'; weight_decay := weight_decay o';
                   nesterov := nesterov o'; maximize := maximize o';
                   momentum_buffer :=
                     (i, b') :: List.filter (fun e => negb (fst e =? i)) (momentum_buffer o') |}
            | None => o'
            end)
       | _, _ => (st, o')
       end)
    (params o) (store, o).

(** The in-place update [p.add_(g, alpha=-rate)] of the parameter [i]. *)
Definition descend (rate : num) (grads : list Tensor) (st : list Tensor)
  (i : nat) : list Tensor :=
  match st !! i, grads !! i with
  | Some p, Some g => <[i := tensor_add p (nneg rate) g]> st
  | _, _ => st
  end.

(** ** Gradient averaging of DistributedDataParallel *)

Definition grads_add (g1 g2 : list Tensor) : list Tensor :=
  zip_with (zip_with nadd) g1 g2.

(** The all-reduce of the backward pass: the gradients of every worker are
    divided by the number of workers and the quotients are summed; every
    worker receives the result. *)
Definition all_reduce_mean (gs : list (list Tensor)) : list Tensor :=
  match map (map (map (fun x => ndiv x (nof_nat (length gs))))) gs with
  | [] => []
  | g :: gs' => fold_left grads_add gs' g
  end.

(** ** Framework capabilities used by the loops *)

(** [train_forward store batch g]: [loss(model(x), y)] on the training items
    [batch] in training mode (dropout consumes randomness), as a scalar, with
    the generator state afterwards.  [backward store batch g]: the gradient
    of that loss for every parameter of the store, as computed locally,
    before averaging.  [eval_forward store batch]: the loss on the test items
    [batch] in evaluation mode. *)
Class Framework `{RS : RandomSource} := {
  train_forward : list Tensor -> list nat -> Rng -> num * Rng;
  backward : list Tensor -> list nat -> Rng -> list Tensor;
  eval_forward : list Tensor -> list nat -> num
}.

Context `{FW : Framework}.

(** ** Processes and the locals of [main] *)

(** The framework calls a process makes, in order. *)
Inductive Event :=
| Forward (training : bool) (batch : list nat) (loss : num)
| Backward
| Step
| Print (i : nat) (train_loss val_loss : num)
| Save (file : string) (sd : list (string * Tensor)).

Record Process := {
  local_rank : nat;            (* --local_rank *)
  proc_rank : nat;             (* torch.distributed.get_rank() *)
  store : list Tensor;         (* parameter tensors of this process *)
  generator : Rng;             (* process-wide random generator state *)
  trace : list Event
}.

Record Worker := {
  proc : Process;
  model : Module;
  train_loader : DataLoader;
  test_loader : DataLoader;
  optimizer : SGD;
  epoch_loss : num;
  val_loss : num
}.

Definition set_proc (w : Worker) (p : Process) : Worker :=
  {| proc := p; model := model w; train_loader := train_loader w;
     test_loader := test_loader w; optimizer := optimizer w;
     epoch_loss := epoch_loss w; val_loss := val_loss w |}.

Definition set_store (p : Process) (st : list Tensor) : Process :=
  {| local_rank := local_rank p; proc_rank := proc_rank p; store := st;
     generator := generator p; trace := trace p |}.

Definition set_generator (p : Process) (g : Rng) : Process :=
  {| local_rank := local_rank p; proc_rank := proc_rank p; store := store p;
     generator := g; trace := trace p |}.

Definition emit (p : Process) (evs : list Event) : Process :=
  {| local_rank := local_rank p; proc_rank := proc_rank p; store := store p;
     generator := generator p; trace := trace p ++ evs |}.

Definition set_optimizer (w : Worker) (o : SGD) : Worker :=
  {| proc := proc w; model := model w; train_loader := train_loader w;
     test_loader := test_loader w; optimizer := o;
     epoch_loss := epoch_loss w; val_loss := val_loss w |}.

Definition set_train_loader (w : Worker) (dl : DataLoader) : Worker :=
  {| proc := proc w; model := model w; train_loader := dl;
     test_loader := test_loader w; optimizer := optimizer w;
     epoch_loss := epoch_loss w; val_loss := val_loss w |}.

Definition set_epoch_loss (w : Worker) (x : num) : Worker :=
  {| proc := proc w; model := model w; train_loader := train_loader w;
     test_loader := test_loader w; optimizer := optimizer w;
     epoch_loss := x; val_loss := val_loss w |}.

Definition set_val_loss (w : Worker) (x : num) : Worker :=
  {| proc := proc w; model := model w; train_loader := train_loader w;
     test_loader := test_loader w; optimizer := optimizer w;
     epoch_loss := epoch_loss w; val_loss := x |}.

(** ** main: one training batch (lines 82-94) *)

(** Lines 83-90 on one worker, up to the point where the backward pass
    waits for the other workers: the scalar loss, the local gradients and the
    generator state after the forward pass. *)
Definition forward_backward (w : Worker) (batch : list nat)
  : num * list Tensor * Rng :=
  let '(l, g') := train_forward (store (proc w)) batch (generator (proc w)) in
  (l, backward (store (proc w)) batch (generator (proc w)), g').

(** Lines 90-94 on one worker once the averaged gradients [avg] are in
    place: the optimizer step, then the loss bookkeeping;
    [x.shape[0]] is the number of items of the batch. *)
Definition finish_batch (w : Worker) (batch : list nat) (l : num) (g' : Rng)
  (avg : list Tensor) : Worker :=
  let '(st, o) := sgd_step (optimizer w) avg (store (proc w)) in
  let p := emit (set_generator (set_store (proc w) st) g')
                [Forward true batch l; Backward; Step] in
  set_epoch_loss (set_optimizer (set_proc w p) o)
                 (nadd (epoch_loss w) (ndiv l (nof_nat (length batch)))).

(** Lines 83-94 on one worker, [avg] being what the gradient averaging of
    the backward pass delivers. *)
Definition worker_batch (avg : list Tensor) (w : Worker) (batch : list nat)
  : Worker :=
  let '(l, _, g') := forward_backward w batch in
  finish_batch w batch l g' avg.

(** The gradients the workers compute locally for their batches, and their
    average. *)
Definition local_grads (ws : list Worker) (batches : list (list nat))
  : list (list Tensor) :=
  zip_with (fun w b => snd (fst (forward_backward w b))) ws batches.

Definition averaged_grads (ws : list Worker) (batches : list (list nat))
  : list Tensor :=
  all_reduce_mean (local_grads ws batches).

(** One iteration of the training loop on all workers: [batches] holds the
    batch of each worker, in rank order. *)
Definition train_batch (ws : list Worker) (batches : list (list nat))
  : list Worker :=
  zip_with (worker_batch (averaged_grads ws batches)) ws batches.

(** The batch lists of the workers, regrouped by iteration.  [None] when the
    workers do not all have the same number of batches: the gradient
    averaging of the longer ones then waits forever. *)
Definition lockstep (bss : list (list (list nat)))
  : option (list (list (list nat))) :=
  let nb := length (hd [] bss) in
  if forallb (fun bs => length bs =? nb) bss
  then Some (map (fun k => map (fun bs => nth k bs []) bss) (seq 0 nb))
  else None.

(** ** main: one epoch (lines 76-112) *)

Definition loader_set_epoch (dl : DataLoader) (i : nat) : DataLoader :=
  {| loader_len := loader_len dl; batch_size := batch_size dl;
     loader_shuffle := loader_shuffle dl;
     sampler := (fun s => set_epoch s i) <$> sampler dl |}.

(** Lines 76-81: the sampler is told the epoch, the running loss is reset and
    the pass over [train_loader] starts. *)
Definition begin_epoch (i : nat) (w : Worker) : Worker * list (list nat) :=
  let tl := loader_set_epoch (train_loader w) i in
  let '(bs, g') := loader_iter tl (generator (proc w)) in
  (set_epoch_loss
     (set_train_loader (set_proc w (set_generator (proc w) g')) tl) nzero,
   bs).

(** Lines 101-110 for one validation batch. *)
Definition validate_batch (w : Worker) (batch : list nat) : Worker :=
  let l := eval_forward (store (proc w)) batch in
  set_val_loss (set_proc w (emit (proc w) [Forward false batch l]))
               (nadd (val_loss w) (ndiv l (nof_nat (length batch)))).

(** Lines 97-110. *)
Definition validate (w : Worker) : Worker :=
  let '(bs, g') := loader_iter (test_loader w) (generator (proc w)) in
  fold_left validate_batch bs
            (set_val_loss (set_proc w (set_generator (proc w) g')) nzero).

(** Line 112. *)
Definition print_epoch (i : nat) (w : Worker) : Worker :=
  set_proc w (emit (proc w) [Print i (epoch_loss w) (val_loss w)]).

Definition run_epoch (i : nat) (ws : list Worker) : option (list Worker) :=
  let started := map (begin_epoch i) ws in
  match lockstep (map snd started) with
  | None => None
  | Some steps =>
      Some (map (fun w => print_epoch i (validate w))
                (fold_left train_batch steps (map fst started)))
  end.

Fixpoint run_epochs (todo : list nat) (ws : list Worker)
  : option (list Worker) :=
  match todo with
  | [] => Some ws
  | i :: todo' =>
      match run_epoch i ws with
      | None => None
      | Some ws' => run_epochs todo' ws'
      end
  end.

(** ** main *)

Record MainArgs := {
  arg_proc : Process;
  arg_model : Module;
  arg_train_loader : DataLoader;
  arg_test_loader : DataLoader
}.

(** Lines 66-72 on all workers: wrapping the model broadcasts the parameter
    tensors of rank 0 to every worker; the optimizer is built over the
    wrapper's parameters with [lr=0.01]. *)
Definition setup (args : list MainArgs) : list Worker :=
  let st0 := (fun a => store (arg_proc a)) <$> head args in
  map (fun a =>
         let m := DistributedDataParallel (arg_model a) in
         {| proc := set_store (arg_proc a) (default (store (arg_proc a)) st0);
            model := m;
            train_loader := arg_train_loader a;
            test_loader := arg_test_loader a;
            optimizer := optim_SGD (parameters m) (ndiv (nof_nat 1) (nof_nat 100));
            epoch_loss := nzero;
            val_loss := nzero |}) args.

(** [main] on every worker of the group, the workers advancing together
    through the gradient averaging of each batch.  The result of a worker is
    [model.module] together with its process state. *)
Definition main (epochs : nat) (args : list MainArgs)
  : option (list (Module * Process)) :=
  match run_epochs (seq 0 epochs) (setup args) with
  | None => None
  | Some ws =>
      mapM (fun w => (fun m => (m, proc w)) <$> module_attr (model w)) ws
  end.

(** ** The script body (lines 117-150) *)

(** The random initial tensors that [create_model] allocates on a process,
    in the order of the parameter references 0 to 4. *)
Record ModelInit := {
  init_0_weight : Tensor;
  init_0_bias : Tensor;
  init_3_weight : Tensor;
  init_3_bias : Tensor;
  init_5_weight : Tensor
}.

Definition initial_store (mi : ModelInit) : list Tensor :=
  [init_0_weight mi; init_0_bias mi; init_3_weight mi; init_3_bias mi;
   init_5_weight mi].

(** What distinguishes the processes at launch: the device index given on the
    command line, the generator state, and the initial tensors. *)
Record Launch := {
  launch_local_rank : nat;
  launch_generator : Rng;
  launch_init : ModelInit
}.

Definition script_args (train_len test_len : nat) (ls : list Launch)
  : list MainArgs :=
  imap (fun r l =>
          let batch_size := 128 in
          let '(train_loader, test_loader, _) :=
            create_data_loaders batch_size train_len test_len (length ls) r in
          {| arg_proc := {| local_rank := launch_local_rank l; proc_rank := r;
                            store := initial_store (launch_init l);
                            generator := launch_generator l; trace := [] |};
             arg_model := create_model;
             arg_train_loader := train_loader;
             arg_test_loader := test_loader |}) ls.

(** Lines 148-150. *)
Definition save_if_rank0 (r : Module * Process) : Process :=
  let '(model, p) := r in
  let rank := proc_rank p in
  if rank =? 0 then emit p [Save "model.pt" (state_dict model (store p))]
  else p.

Definition script (train_len test_len : nat) (ls : list Launch)
  : option (list Process) :=
  let epochs := 10 in
  match main epochs (script_args train_len test_len ls) with
  | None => None
  | Some rs => Some (map save_if_rank0 rs)
  end.

(** ** Observations on a run *)

(** One worker taking the batches [fst x] in turn, [snd x] being the
    averaged gradients delivered for each. *)
Definition worker_batches (bas : list (list nat * list Tensor)) (w : Worker)
  : Worker :=
  fold_left (fun w x => worker_batch (snd x) w (fst x)) bas w.

(** The events of a training pass and of a validation pass over the given
    batches with the given scalar losses. *)
Definition training_events (bl : list (list nat * num)) : list Event :=
  flat_map (fun x => [Forward true (fst x) (snd x); Backward; Step]) bl.

Definition validation_events (bl : list (list nat * num)) : list Event :=
  map (fun x => Forward false (fst x) (snd x)) bl.

(** The running sum built by [acc += loss / x.shape[0]] from [acc = 0]. *)
Definition loss_sum (bl : list (list nat * num)) : num :=
  fold_left (fun acc x => nadd acc (ndiv (snd x) (nof_nat (length (fst x)))))
            bl nzero.



(** The events of one epoch: the training pass, the validation pass, the
    printed line. *)
Definition epoch_events (i : nat) (tl vl : list (list nat * num))
  : list Event :=
  training_events tl ++ validation_events vl
  ++ [Print i (loss_sum tl) (loss_sum vl)].

Definition is_forward (training : bool) (ev : Event) : bool :=
  match ev with Forward tr _ _ => Bool.eqb tr training | _ => false end.

(** Readings of single events: the epoch a line was printed for, the items
    of a training batch, the items of a validation batch. *)
Definition printed_epoch (ev : Event) : option nat :=
  match ev with Print i _ _ => Some i | _ => None end.

Definition training_batch (ev : Event) : option (list nat) :=
  match ev with Forward true b _ => Some b | _ => None end.

Definition validation_batch (ev : Event) : option (list nat) :=
  match ev with Forward false b _ => Some b | _ => None end.

(** The scalar loss of a training batch. *)
Definition training_loss (ev : Event) : option num :=
  match ev with Forward true _ l => Some l | _ => None end.

(** One epoch [fst x] of the script on rank [k], with its training and
    validation batches and losses [snd x]: the training batches are the
    rank's partition for that epoch cut into batches of 128, the validation
    batches are the whole test set in some order, cut into
    [ceil(t / 128)] batches. *)
Definition script_epoch (n t wsz k : nat)
  (x : nat * (list (list nat * num) * list (list nat * num))) : Prop :=
  map fst (fst (snd x))
  = batch_sampler 128 [] (epoch_indices (new_sampler n wsz k 42) (fst x)) /\
  Permutation (concat (map fst (snd (snd x)))) (seq 0 t) /\
  length (snd (snd x)) = ceil_div t 128.

Definition events_of_epochs
  (eps : list (nat * (list (list nat * num) * list (list nat * num))))
  : list Event :=
  concat (map (fun x => epoch_events (fst x) (fst (snd x)) (snd (snd x))) eps).

(** What a training pass leaves untouched on a worker. *)
Definition same_setting (w w' : Worker) : Prop :=
  model w' = model w /\ train_loader w' = train_loader w /\
  test_loader w' = test_loader w /\ val_loss w' = val_loss w /\
  local_rank (proc w') = local_rank (proc w) /\
  proc_rank (proc w') = proc_rank (proc w) /\
  length (store (proc w')) = length (store (proc w)).

Definition is_save (ev : Event) : bool :=
  match ev with Save _ _ => true | _ => false end.

Definition is_step (ev : Event) : bool :=
  match ev with Step => true | _ => false end.


(** The shape a worker of the script has at every epoch boundary, in a group
    of [wsz] processes over [n] training and [t] test items: its rank, the
    wrapped model, the loaders of [create_data_loaders] (the sampler at some
    epoch), five parameter tensors, and nothing saved so far. *)
Definition script_worker (n t wsz k : nat) (w : Worker) : Prop :=
  proc_rank (proc w) = k /\
  model w = DistributedDataParallel create_model /\
  (exists e, train_loader w
             = loader_set_epoch (fst (fst (create_data_loaders 128 n t wsz k))) e) /\
  test_loader w = snd (fst (create_data_loaders 128 n t wsz k)) /\
  length (store (proc w)) = 5 /\
  Forall (fun ev => is_save ev = false) (trace (proc w)).

Definition script_group (n t : nat) (ws : list Worker) : Prop :=
  forall k w, ws !! k = Some w -> script_worker n t (length ws) k w.

(** All workers hold the same parameter tensors and optimizer state. *)
Definition replicas_agree (ws : list Worker) : Prop :=
  forall w1 w2, In w1 ws -> In w2 ws ->
    store (proc w1) = store (proc w2) /\ optimizer w1 = optimizer w2.

(** The states the group goes through from [setup] on: a worker on its own
    starts an epoch or runs its validation pass and prints; a training batch
    is taken by all workers together. *)
Inductive reachable (args : list MainArgs) : list Worker -> Prop :=
| reach_setup : reachable args (setup args)
| reach_begin_epoch ws i k :
    reachable args ws ->
    reachable args (alter (fun w => fst (begin_epoch i w)) k ws)
| reach_train_batch ws batches :
    reachable args ws ->
    reachable args (train_batch ws batches)
| reach_validate ws i k :
    reachable args ws ->
    reachable args (alter (fun w => print_epoch i (validate w)) k ws).

End Training.

(** ** Concrete instances, for running the definitions *)

(** A random source whose permutation rotates [0, n) by the seed. *)
Definition rotation (s n : nat) : list nat :=
  skipn (s mod n) (seq 0 n) ++ firstn (s mod n) (seq 0 n).

Lemma rotation_perm (s n : nat) : Permutation (rotation s n) (seq 0 n).
Proof.
  unfold rotation.
  rewrite Permutation_app_comm.
  now rewrite firstn_skipn.
Qed.

#[export] Instance rotation_source : RandomSource := {|
  Rng := nat;
  draw_seed := fun g => (g, S g);
  randperm := rotation;
  randperm_perm := rotation_perm
|}.

(** A one-weight model: the loss is the square of the first entry of
    parameter 0 whatever the batch, its gradient twice that entry, and the
    other parameters have zero gradient. *)
Definition bowl_loss {num} `{Arith num} (st : list (list num)) : num :=
  match st with
  | (x :: _) :: _ => nmul x x
  | _ => nzero
  end.

Definition bowl_grad {num} `{Arith num} (st : list (list num)) : list (list num) :=
  match st with
  | (x :: t) :: st' =>
      (nmul (nof_nat 2) x :: map (fun _ => nzero) t)
      :: map (map (fun _ => nzero)) st'
  | _ => map (map (fun _ => nzero)) st
  end.

#[export] Instance bowl {num} `{Arith num} : Framework (RS := rotation_source) := {|
  train_forward := fun st _ g => (bowl_loss st, S g);
  backward := fun st _ _ => bowl_grad st;
  eval_forward := fun st _ => bowl_loss st
|}.

(** A model whose loss is 1 on every batch and whose gradients are zero. *)
Definition unit_loss {num} `{Arith num} : Framework (RS := rotation_source) := {|
  train_forward := fun _ _ g => (nof_nat 1, g);
  backward := fun st _ _ => map (map (fun _ => nzero)) st;
  eval_forward := fun _ _ => nof_nat 1
|}.

(** A worker as [main] holds it after line 72, in a group of [w] processes
    over [n] training and [t] test items with batches of [bs]: rank [r],
    device [dev], generator state [g], and [x] as the only weight. *)
Definition example_worker {num} `{Arith num} (bs n t w r dev g : nat) (x : num)
  : Worker (RS := rotation_source) :=
  let '(train_loader, test_loader, _) := create_data_loaders bs n t w r in
  {| proc := {| local_rank := dev; proc_rank := r;
                store := [[x]; []; []; []; []];
                generator := g; trace := [] |};
     model := DistributedDataParallel create_model;
     train_loader := train_loader;
     test_loader := test_loader;
     optimizer := optim_SGD (parameters (DistributedDataParallel create_model))
                            (ndiv (nof_nat 1) (nof_nat 100));
     epoch_loss := nzero;
     val_loss := nzero |}.

(** Arguments of [main] for rank [r] of [w] processes whose train loader
    has a sampler over an empty dataset; [t] test items, batches of [bs]. *)
Definition example_empty_args {num} (bs t w r g : nat) (x : num)
  : MainArgs (RS := rotation_source) :=
  {| arg_proc := {| local_rank := r; proc_rank := r;
                    store := [[x]; []; []; []; []];
                    generator := g; trace := [] |};
     arg_model := create_model;
     arg_train_loader := {| loader_len := 0; batch_size := bs;
                            loader_shuffle := false;
                            sampler := Some (new_sampler 0 w r 42) |};
     arg_test_loader := {| loader_len := t; batch_size := bs;
                           loader_shuffle := true; sampler := None |} |}.

(** A launch whose only non-empty tensor is the one-entry weight [x]. *)
Definition example_launch {num} (dev g : nat) (x : num)
  : Launch (RS := rotation_source) :=
  {| launch_local_rank := dev; launch_generator := g;
     launch_init := {| init_0_weight := [x]; init_0_bias := [];
                       init_3_weight := []; init_3_bias := [];
                       init_5_weight := [] |} |}.

(** * Properties *)

(** ** Slicing *)

Lemma every_nth_lookup {A} (step : nat) (l : list A) :
  0 < step ->
  forall skip k, every_nth step skip l !! k = l !! (skip + k * step).
Proof.
  intros Hstep. induction l as [|x l IH]; intros skip k.
  - now rewrite !lookup_nil.
  - destruct skip as [|skip]; simpl.
    + destruct k as [|k]; simpl; [reflexivity|].
      rewrite IH.
      replace (step + k * step) with (S (step - 1 + k * step)) by lia.
      reflexivity.
    + now rewrite IH.
Qed.

Lemma every_nth_length {A} (w r m : nat) (l : list A) :
  r < w -> length l = m * w -> length (every_nth w r l) = m.
Proof.
  intros Hr Hl.
  assert (Hw : 0 < w) by lia.
  destruct (Nat.lt_trichotomy (length (every_nth w r l)) m) as [Hlt|[Heq|Hgt]];
    [exfalso | exact Heq | exfalso].
  - pose proof (every_nth_lookup w l Hw r (length (every_nth w r l))) as E.
    rewrite (lookup_ge_None_2 (every_nth w r l)) in E by lia.
    symmetry in E. apply lookup_ge_None_1 in E. nia.
  - pose proof (every_nth_lookup w l Hw r m) as E.
    rewrite (lookup_ge_None_2 l) in E by nia.
    apply lookup_ge_None_1 in E. lia.
Qed.

Lemma every_nth_In {A} (w r : nat) (l : list A) (x : A) :
  0 < w -> In x (every_nth w r l) <-> exists k, l !! (r + k * w) = Some x.
Proof.
  intros Hw. rewrite <- list_elem_of_In, list_elem_of_lookup.
  split; intros [k Hk]; exists k.
  - now rewrite <- every_nth_lookup.
  - now rewrite every_nth_lookup.
Qed.

(** ** The sampler's index list *)

Lemma ceil_div_mul_ge (n w : nat) : 0 < w -> n <= ceil_div n w * w.
Proof.
  intros Hw. unfold ceil_div.
  pose proof (Nat.div_mod (n + w - 1) w ltac:(lia)) as E.
  pose proof (Nat.mod_upper_bound (n + w - 1) w ltac:(lia)).
  nia.
Qed.

Lemma ceil_div_exact (n w : nat) :
  0 < w -> n mod w = 0 -> ceil_div n w * w = n.
Proof.
  intros Hw Hm. unfold ceil_div.
  apply Nat.Div0.div_exact in Hm.
  set (q := n / w) in *.
  replace (n + w - 1) with (q * w + (w - 1)) by lia.
  rewrite Nat.div_add_l by lia.
  rewrite Nat.div_small by lia. lia.
Qed.

Lemma firstn_In {A} (n : nat) (l : list A) (x : A) :
  In x (firstn n l) -> In x l.
Proof.
  intros Hx. rewrite <- (firstn_skipn n l). apply in_or_app. now left.
Qed.

Lemma list_times_length {A} (l : list A) (k : nat) :
  length (list_times l k) = k * length l.
Proof.
  induction k as [|k IH]; simpl; [reflexivity|].
  rewrite length_app, IH. lia.
Qed.

Lemma list_times_In {A} (l : list A) (k : nat) (x : A) :
  In x (list_times l k) -> In x l.
Proof.
  induction k as [|k IH]; simpl; [tauto|].
  rewrite in_app_iff. tauto.
Qed.

Section SamplingFacts.
Context `{RS : RandomSource}.

Lemma shuffled_perm (s : DistributedSampler) :
  Permutation
    (if shuffle s then randperm (seed s + epoch s) (dataset_len s)
     else seq 0 (dataset_len s))
    (seq 0 (dataset_len s)).
Proof. destruct (shuffle s); [apply randperm_perm | reflexivity]. Qed.

Lemma padded_indices_length (s : DistributedSampler) :
  drop_last s = false -> 0 < num_replicas s ->
  length (padded_indices s) = total_size s.
Proof.
  intros Hd Hw. unfold padded_indices. rewrite Hd. cbv zeta. simpl negb. cbv iota.
  pose proof (shuffled_perm s) as Hp. apply Permutation_length in Hp.
  rewrite length_seq in Hp.
  set (ix := if shuffle s then _ else _) in *.
  assert (Hge : dataset_len s <= total_size s).
  { unfold total_size, num_samples. rewrite Hd. simpl.
    now apply ceil_div_mul_ge. }
  assert (H0 : dataset_len s = 0 -> total_size s = 0).
  { intros E. unfold total_size, num_samples, ceil_div. rewrite Hd, E. simpl.
    rewrite Nat.div_small by lia. reflexivity. }
  rewrite Hp.
  destruct (Nat.leb_spec (total_size s - dataset_len s) (dataset_len s)) as [Hle|Hgt].
  - rewrite length_app, length_firstn. lia.
  - rewrite length_app, length_firstn, list_times_length, Hp.
    pose proof (ceil_div_mul_ge (total_size s - dataset_len s) (dataset_len s)
                  ltac:(lia)).
    lia.
Qed.

Lemma padded_indices_In (s : DistributedSampler) (x : nat) :
  drop_last s = false ->
  In x (padded_indices s) <-> x < dataset_len s.
Proof.
  intros Hd. unfold padded_indices. rewrite Hd. cbv zeta. simpl negb. cbv iota.
  pose proof (shuffled_perm s) as Hp.
  set (ix := if shuffle s then _ else _) in *.
  assert (Hix : In x ix <-> x < dataset_len s).
  { split; intros Hx.
    - apply (Permutation_in _ Hp) in Hx. apply in_seq in Hx. lia.
    - apply (Permutation_in _ (Permutation_sym Hp)). apply in_seq. lia. }
  rewrite <- Hix.
  destruct (_ <=? _); rewrite in_app_iff; split; try tauto;
    intros [Hx|Hx]; try assumption; apply firstn_In in Hx; [assumption|].
  now apply list_times_In in Hx.
Qed.

End SamplingFacts.

(** ** Partitions of one epoch *)

Section Partitions.
Context `{RS : RandomSource}.
Variables (n w sd e : nat).
Hypothesis Hw : 0 < w.

(** The padded index list is the same on every rank. *)
Let padded : list nat := padded_indices (set_epoch (new_sampler n w 0 sd) e).

Lemma epoch_indices_unfold (r : nat) :
  epoch_indices (new_sampler n w r sd) e = every_nth w r padded.
Proof using Hw.
  unfold epoch_indices, sampler_iter, slice_step.
  change (padded_indices (set_epoch (new_sampler n w r sd) e)) with padded.
  change (total_size (set_epoch (new_sampler n w r sd) e))
    with (total_size (set_epoch (new_sampler n w 0 sd) e)).
  rewrite firstn_all2; [reflexivity|].
  unfold padded. now rewrite padded_indices_length.
Qed.

Lemma epoch_indices_length (r : nat) :
  r < w -> length (epoch_indices (new_sampler n w r sd) e) = ceil_div n w.
Proof using Hw.
  intros Hr. rewrite epoch_indices_unfold.
  apply every_nth_length; [assumption|].
  unfold padded. now rewrite padded_indices_length.
Qed.

Lemma epoch_indices_cover (i : nat) :
  (exists r, r < w /\ In i (epoch_indices (new_sampler n w r sd) e)) <-> i < n.
Proof using Hw.
  split.
  - intros (r & _ & Hi). rewrite epoch_indices_unfold in Hi.
    apply every_nth_In in Hi as [k Hk]; [|assumption].
    apply list_elem_of_lookup_2, list_elem_of_In in Hk.
    now apply padded_indices_In in Hk.
  - intros Hi.
    assert (Hin : In i padded) by now apply padded_indices_In.
    apply list_elem_of_In, list_elem_of_lookup in Hin as [j Hj].
    exists (j mod w). split; [apply Nat.mod_upper_bound; lia|].
    rewrite epoch_indices_unfold. apply every_nth_In; [assumption|].
    exists (j / w).
    replace (j mod w + j / w * w) with j; [assumption|].
    pose proof (Nat.div_mod j w ltac:(lia)). lia.
Qed.

Lemma padded_NoDup : n mod w = 0 -> NoDup padded.
Proof using Hw.
  intros Hm. unfold padded, padded_indices. simpl.
  unfold total_size, num_samples. simpl.
  rewrite ceil_div_exact by assumption.
  pose proof (randperm_perm (sd + e) n) as Hp.
  rewrite (Permutation_length Hp), length_seq, Nat.sub_diag. simpl.
  rewrite app_nil_r.
  rewrite Hp. apply NoDup_seq.
Qed.

Lemma epoch_indices_NoDup (r : nat) :
  n mod w = 0 -> NoDup (epoch_indices (new_sampler n w r sd) e).
Proof using Hw.
  intros Hm. rewrite epoch_indices_unfold.
  apply NoDup_alt. intros k1 k2 x H1 H2.
  rewrite every_nth_lookup in H1, H2 by assumption.
  pose proof (NoDup_lookup _ _ _ _ (padded_NoDup Hm) H1 H2). nia.
Qed.

Lemma epoch_indices_disjoint (r1 r2 i : nat) :
  n mod w = 0 -> r1 < w -> r2 < w -> r1 <> r2 ->
  In i (epoch_indices (new_sampler n w r1 sd) e) ->
  ~ In i (epoch_indices (new_sampler n w r2 sd) e).
Proof using Hw.
  intros Hm Hr1 Hr2 Hne H1 H2.
  rewrite epoch_indices_unfold in H1, H2.
  apply every_nth_In in H1 as [k1 H1]; [|assumption].
  apply every_nth_In in H2 as [k2 H2]; [|assumption].
  pose proof (NoDup_lookup _ _ _ _ (padded_NoDup Hm) H1 H2) as E.
  apply Hne.
  assert (E1 : (r1 + k1 * w) mod w = r1)
    by (rewrite Nat.Div0.mod_add; now apply Nat.mod_small).
  assert (E2 : (r2 + k2 * w) mod w = r2)
    by (rewrite Nat.Div0.mod_add; now apply Nat.mod_small).
  congruence.
Qed.

(** When the dataset size is not a multiple of the number of workers, the
    head of the permutation is used a second time as padding: it is drawn
    both by rank 0 and by rank [n mod w]. *)
Lemma epoch_indices_overlap :
  0 < n -> n mod w <> 0 ->
  exists i, In i (epoch_indices (new_sampler n w 0 sd) e) /\
            In i (epoch_indices (new_sampler n w (n mod w) sd) e).
Proof using Hw.
  intros Hn Hm.
  pose proof (randperm_perm (sd + e) n) as Hp.
  pose proof (Permutation_length Hp) as Hlen. rewrite length_seq in Hlen.
  assert (Hpad : length padded = ceil_div n w * w).
  { unfold padded. now rewrite padded_indices_length. }
  assert (Hgt : n < length padded).
  { rewrite Hpad. pose proof (ceil_div_mul_ge n w Hw).
    destruct (Nat.eq_dec (ceil_div n w * w) n) as [E|]; [|lia].
    exfalso. apply Hm. rewrite <- E. apply Nat.Div0.mod_mul. }
  destruct (randperm (sd + e) n) as [|x0 ix] eqn:Eix; [simpl in Hlen; lia|].
  assert (H0 : padded !! 0 = Some x0).
  { unfold padded, padded_indices. simpl. rewrite Eix.
    now destruct (_ <=? _). }
  assert (Hn' : padded !! n = Some x0).
  { revert Hgt. unfold padded, padded_indices. simpl. rewrite Eix.
    set (pad := total_size _ - _).
    destruct (_ <=? _); rewrite length_app, length_firstn; intros Hgt;
      (rewrite lookup_app_r by (rewrite Hlen; lia));
      rewrite Hlen, Nat.sub_diag;
      destruct pad as [|pad]; simpl in *; try lia; try reflexivity.
    pose proof (ceil_div_mul_ge (S pad) n Hn).
    destruct (ceil_div (S pad) n) as [|c]; [lia|reflexivity]. }
  exists x0. rewrite !epoch_indices_unfold. split; apply every_nth_In; try assumption.
  - now exists 0.
  - exists (n / w).
    replace (n mod w + n / w * w) with n; [assumption|].
    pose proof (Nat.div_mod n w ltac:(lia)). lia.
Qed.

End Partitions.

(** ** C1: the partitions of the ranks *)

Lemma create_data_loaders_sampler `{RS : RandomSource} (bs n t w r : nat) :
  sampler (fst (fst (create_data_loaders bs n t w r)))
  = Some (new_sampler n w r 42)
  /\ snd (create_data_loaders bs n t w r) = new_sampler n w r 42.
Proof. split; reflexivity. Qed.

(** C1, as stated, fails: with 3 training items and 2 workers no random
    source whatsoever makes the partitions of ranks 0 and 1 disjoint in epoch
    0 (seed 42), because the padding repeats the first index of the
    permutation. *)
Lemma partitions_not_disjoint_3_over_2 :
  ~ exists RS : RandomSource,
      forall r1 r2 i, r1 < 2 -> r2 < 2 -> r1 <> r2 ->
        In i (@epoch_indices RS (new_sampler 3 2 r1 42) 0) ->
        ~ In i (@epoch_indices RS (new_sampler 3 2 r2 42) 0).
Proof.
  intros [RS H].
  destruct (@epoch_indices_overlap RS 3 2 42 0) as (i & H0 & H1);
    [lia | lia | discriminate |].
  apply (H 0 1 i); [lia | lia | discriminate | exact H0 | exact H1].
Qed.

(** C1 (amended): for every dataset size [n], world size [w >= 1], seed and
    epoch, the partitions of ranks [0..w-1] all have length [ceil(n / w)] and
    together contain exactly the indices of [0, n); when [w] divides [n]
    they repeat no index and are pairwise disjoint. *)
Theorem partitions_equal_cover_disjoint_when_divisible
  `{RS : RandomSource} (n w sd e : nat) :
  0 < w ->
  (forall r, r < w ->
     length (epoch_indices (new_sampler n w r sd) e) = ceil_div n w) /\
  (forall i, (exists r, r < w /\ In i (epoch_indices (new_sampler n w r sd) e))
             <-> i < n) /\
  (n mod w = 0 ->
     (forall r, r < w -> NoDup (epoch_indices (new_sampler n w r sd) e)) /\
     (forall r1 r2 i, r1 < w -> r2 < w -> r1 <> r2 ->
        In i (epoch_indices (new_sampler n w r1 sd) e) ->
        ~ In i (epoch_indices (new_sampler n w r2 sd) e))).
Proof.
  intros Hw. repeat split.
  - intros r Hr. now apply epoch_indices_length.
  - now apply epoch_indices_cover.
  - now apply epoch_indices_cover.
  - intros r _. now apply epoch_indices_NoDup.
  - intros r1 r2 i. now apply epoch_indices_disjoint.
Qed.

Lemma partitions_equal_cover_disjoint_witness :
  (forall r, r < 2 ->
     length (epoch_indices (RS := rotation_source) (new_sampler 6 2 r 42) 1)
     = ceil_div 6 2) /\
  (forall i, (exists r, r < 2 /\
                In i (epoch_indices (RS := rotation_source) (new_sampler 6 2 r 42) 1))
             <-> i < 6) /\
  (6 mod 2 = 0 ->
     (forall r, r < 2 ->
        NoDup (epoch_indices (RS := rotation_source) (new_sampler 6 2 r 42) 1)) /\
     (forall r1 r2 i, r1 < 2 -> r2 < 2 -> r1 <> r2 ->
        In i (epoch_indices (RS := rotation_source) (new_sampler 6 2 r1 42) 1) ->
        ~ In i (epoch_indices (RS := rotation_source) (new_sampler 6 2 r2 42) 1))).
Proof.
  apply (partitions_equal_cover_disjoint_when_divisible
           (RS := rotation_source) 6 2 42 1).
  apply Nat.lt_0_succ.
Defined.

Example epoch_indices_6_over_2 :
  epoch_indices (RS := rotation_source) (new_sampler 6 2 0 42) 1 = [1; 3; 5] /\
  epoch_indices (RS := rotation_source) (new_sampler 6 2 1 42) 1 = [2; 4; 0].
Proof. split; reflexivity. Qed.

Example epoch_indices_3_over_2 :
  epoch_indices (RS := rotation_source) (new_sampler 3 2 0 42) 0 = [0; 2] /\
  epoch_indices (RS := rotation_source) (new_sampler 3 2 1 42) 0 = [1; 0].
Proof. split; reflexivity. Qed.

(** ** C2: the partition depends on nothing but its inputs *)

Lemma epoch_indices_inputs `{RS : RandomSource} (s1 s2 : DistributedSampler)
  (i : nat) :
  dataset_len s1 = dataset_len s2 -> rank s1 = rank s2 ->
  num_replicas s1 = num_replicas s2 -> seed s1 = seed s2 ->
  shuffle s1 = shuffle s2 -> drop_last s1 = drop_last s2 ->
  epoch_indices s1 i = epoch_indices s2 i.
Proof.
  destruct s1, s2; simpl; intros; subst; reflexivity.
Qed.

(** Every epoch [i] of [main] re-derives the worker's batches from its
    sampler at epoch [i], that is from the permutation seeded with
    [seed + i]. *)
Lemma begin_epoch_batches {num : Type} {AR : Arith num} `{RS : RandomSource}
  (w : Worker (num := num)) (s : DistributedSampler) (i : nat) :
  sampler (train_loader w) = Some s ->
  snd (begin_epoch i w)
  = batch_sampler (batch_size (train_loader w)) [] (epoch_indices s i) /\
  sampler (train_loader (fst (begin_epoch i w))) = Some (set_epoch s i).
Proof.
  intros Hs. unfold begin_epoch, loader_iter, loader_set_epoch. simpl.
  rewrite Hs. now split.
Qed.

Example epoch_indices_change_with_epoch :
  epoch_indices (RS := rotation_source) (new_sampler 6 2 0 42) 0 = [0; 2; 4] /\
  epoch_indices (RS := rotation_source) (new_sampler 6 2 0 42) 1 = [1; 3; 5].
Proof. split; reflexivity. Qed.

(** C2: two processes whose samplers were built for the same dataset size,
    rank, world size and seed draw the same ordered indices, and hence the
    same batches, in every epoch [i], whatever else differs between them
    (generator state, parameters, device, the epoch set before): nothing is
    exchanged to agree on the partition. *)
Theorem partition_deterministic {num : Type} {AR : Arith num}
  `{RS : RandomSource} (w1 w2 : Worker (num := num))
  (s1 s2 : DistributedSampler) (i : nat) :
  sampler (train_loader w1) = Some s1 ->
  sampler (train_loader w2) = Some s2 ->
  batch_size (train_loader w1) = batch_size (train_loader w2) ->
  dataset_len s1 = dataset_len s2 -> rank s1 = rank s2 ->
  num_replicas s1 = num_replicas s2 -> seed s1 = seed s2 ->
  shuffle s1 = shuffle s2 -> drop_last s1 = drop_last s2 ->
  epoch_indices s1 i = epoch_indices s2 i /\
  snd (begin_epoch i w1) = snd (begin_epoch i w2).
Proof.
  intros E1 E2 Eb Hn Hr Hw Hs Hsh Hd.
  pose proof (epoch_indices_inputs s1 s2 i Hn Hr Hw Hs Hsh Hd) as E.
  split; [exact E|].
  unfold begin_epoch, loader_iter, loader_set_epoch. simpl.
  rewrite E1, E2. simpl.
  fold (epoch_indices s1 i). fold (epoch_indices s2 i).
  now rewrite E, Eb.
Qed.

Lemma partition_deterministic_witness :
  let w1 := example_worker (num := Q) 2 5 3 2 1 0 0 1%Q in
  let w2 := set_train_loader
              (example_worker (num := Q) 2 5 3 2 1 3 7 5%Q)
              (loader_set_epoch (train_loader (example_worker (num := Q) 2 5 3 2 1 3 7 5%Q)) 9) in
  epoch_indices (new_sampler 5 2 1 42) 4
  = epoch_indices (set_epoch (new_sampler 5 2 1 42) 9) 4 /\
  snd (begin_epoch 4 w1) = snd (begin_epoch 4 w2).
Proof.
  intros w1 w2.
  apply (partition_deterministic w1 w2 (new_sampler 5 2 1 42)
           (set_epoch (new_sampler 5 2 1 42) 9) 4); reflexivity.
Defined.

(** ** The optimizer step *)

Section Optimizer.
Context {num : Type} {AR : Arith num}.

Lemma sgd_update_plain (o : SGD) (p g : Tensor) (buf : option Tensor) :
  nis_zero (momentum o) = true -> nis_zero (weight_decay o) = true ->
  maximize o = false ->
  sgd_update o p g buf = (tensor_add p (nneg (lr o)) g, buf).
Proof.
  intros Hm Hwd Hmax. unfold sgd_update. now rewrite Hmax, Hwd, Hm.
Qed.

Lemma sgd_step_plain (o : SGD) (grads st : list Tensor) :
  nis_zero (momentum o) = true -> nis_zero (weight_decay o) = true ->
  maximize o = false -> momentum_buffer o = [] ->
  sgd_step o grads st = (fold_left (descend (lr o) grads) (params o) st, o).
Proof.
  intros Hm Hwd Hmax Hbuf. unfold sgd_step.
  generalize (params o) as ps. intros ps. revert st.
  induction ps as [|i ps IH]; intros st; simpl; [reflexivity|].
  unfold descend at 2.
  destruct (st !! i) as [p|]; [|apply IH].
  destruct (grads !! i) as [g|]; [|apply IH].
  rewrite sgd_update_plain by assumption.
  rewrite Hbuf. simpl. apply IH.
Qed.

Lemma optim_SGD_step (ps : list nat) (rate : num) (grads st : list Tensor) :
  sgd_step (optim_SGD ps rate) grads st
  = (fold_left (descend rate grads) ps st, optim_SGD ps rate).
Proof.
  apply (sgd_step_plain (optim_SGD ps rate)); simpl;
    auto using nis_zero_zero.
Qed.

Lemma descend_length (rate : num) (grads st : list Tensor) (i : nat) :
  length (descend rate grads st i) = length st.
Proof.
  unfold descend. destruct (st !! i), (grads !! i); try reflexivity.
  apply length_insert.
Qed.

Lemma descend_other (rate : num) (grads st : list Tensor) (i j : nat) :
  i <> j -> descend rate grads st i !! j = st !! j.
Proof.
  intros Hne. unfold descend.
  destruct (st !! i), (grads !! i); try reflexivity.
  now apply list_lookup_insert_ne.
Qed.

Lemma descend_fold_other (rate : num) (grads : list Tensor) (ps : list nat)
  (st : list Tensor) (j : nat) :
  ~ In j ps -> fold_left (descend rate grads) ps st !! j = st !! j.
Proof.
  revert st. induction ps as [|i ps IH]; intros st Hj; simpl; [reflexivity|].
  rewrite IH by (intros Hin; apply Hj; now right).
  apply descend_other. intros ->. apply Hj. now left.
Qed.

Lemma descend_fold_lookup (rate : num) (grads : list Tensor) (ps : list nat)
  (st : list Tensor) (i : nat) (p g : Tensor) :
  NoDup ps -> In i ps -> st !! i = Some p -> grads !! i = Some g ->
  fold_left (descend rate grads) ps st !! i
  = Some (tensor_add p (nneg rate) g).
Proof.
  intros Hnd. revert st. induction Hnd as [|j ps Hj Hnd IH]; intros st Hi Hp Hg.
  - destruct Hi.
  - simpl. destruct (Nat.eq_dec j i) as [->|Hne].
    + rewrite descend_fold_other by (now rewrite <- list_elem_of_In).
      unfold descend. rewrite Hp, Hg.
      apply list_lookup_insert_eq. now apply lookup_lt_Some in Hp.
    + destruct Hi as [Hi|Hi]; [contradiction|].
      apply IH; [assumption| |assumption].
      now rewrite descend_other.
Qed.

Lemma sgd_step_length (o : SGD) (grads st : list Tensor) :
  length (fst (sgd_step o grads st)) = length st.
Proof.
  unfold sgd_step. generalize (params o) as ps. intros ps.
  revert st o. induction ps as [|i ps IH]; intros st o; simpl; [reflexivity|].
  destruct (st !! i) as [p|]; [|apply IH].
  destruct (grads !! i) as [g|]; [|apply IH].
  destruct (sgd_update o p g _) as [p' b].
  destruct b; rewrite IH; apply length_insert.
Qed.

End Optimizer.

(** ** One worker: batches, validation, epoch bookkeeping *)

Section WorkerSteps.
Context {num : Type} {AR : Arith num} `{FW : Framework num}.

Lemma worker_batch_eq (avg : list Tensor) (w : Worker) (b : list nat) :
  worker_batch avg w b =
  let fw := train_forward (store (proc w)) b (generator (proc w)) in
  let r := sgd_step (optimizer w) avg (store (proc w)) in
  {| proc := {| local_rank := local_rank (proc w);
                proc_rank := proc_rank (proc w);
                store := fst r;
                generator := snd fw;
                trace := trace (proc w) ++ [Forward true b (fst fw); Backward; Step] |};
     model := model w;
     train_loader := train_loader w;
     test_loader := test_loader w;
     optimizer := snd r;
     epoch_loss := nadd (epoch_loss w) (ndiv (fst fw) (nof_nat (length b)));
     val_loss := val_loss w |}.
Proof.
  unfold worker_batch, forward_backward, finish_batch.
  destruct (train_forward _ _ _) as [l g'].
  destruct (sgd_step _ _ _) as [st o]. reflexivity.
Qed.

Lemma worker_batches_summary (bas : list (list nat * list Tensor)) (w : Worker) :
  exists losses : list num,
    length losses = length bas /\
    let tl := zip (map fst bas) losses in
    trace (proc (worker_batches bas w)) = trace (proc w) ++ training_events tl /\
    epoch_loss (worker_batches bas w)
    = fold_left (fun acc x => nadd acc (ndiv (snd x) (nof_nat (length (fst x)))))
                tl (epoch_loss w) /\
    same_setting w (worker_batches bas w).
Proof.
  revert w. induction bas as [|[b avg] bas IH]; intros w.
  - exists []. simpl. rewrite app_nil_r. unfold same_setting. tauto.
  - simpl. destruct (IH (worker_batch avg w b)) as (losses & Hlen & Htr & Hel & Hs).
    exists (fst (train_forward (store (proc w)) b (generator (proc w))) :: losses).
    split; [simpl; now rewrite Hlen|].
    cbv zeta in *. unfold worker_batches in *. simpl.
    rewrite Htr, Hel. rewrite worker_batch_eq. simpl.
    rewrite <- app_assoc. repeat split; try reflexivity.
    all: destruct Hs as (H1 & H2 & H3 & H4 & H5 & H6 & H7);
      rewrite worker_batch_eq in *; simpl in *; try assumption.
    now rewrite H7, sgd_step_length.
Qed.

Lemma validate_batch_fold (bs : list (list nat)) (w : Worker) :
  fold_left validate_batch bs w =
  let vl := map (fun b => (b, eval_forward (store (proc w)) b)) bs in
  {| proc := {| local_rank := local_rank (proc w);
                proc_rank := proc_rank (proc w);
                store := store (proc w);
                generator := generator (proc w);
                trace := trace (proc w) ++ validation_events vl |};
     model := model w;
     train_loader := train_loader w;
     test_loader := test_loader w;
     optimizer := optimizer w;
     epoch_loss := epoch_loss w;
     val_loss := fold_left
                   (fun acc x => nadd acc (ndiv (snd x) (nof_nat (length (fst x)))))
                   vl (val_loss w) |}.
Proof.
  revert w. induction bs as [|b bs IH]; intros w.
  - simpl. rewrite app_nil_r. now destruct w as [[] ? ? ? ? ? ?].
  - simpl. rewrite IH. unfold validate_batch. simpl.
    now rewrite <- app_assoc.
Qed.

Lemma validate_eq (w : Worker) :
  validate w =
  let it := loader_iter (test_loader w) (generator (proc w)) in
  let vl := map (fun b => (b, eval_forward (store (proc w)) b)) (fst it) in
  {| proc := {| local_rank := local_rank (proc w);
                proc_rank := proc_rank (proc w);
                store := store (proc w);
                generator := snd it;
                trace := trace (proc w) ++ validation_events vl |};
     model := model w;
     train_loader := train_loader w;
     test_loader := test_loader w;
     optimizer := optimizer w;
     epoch_loss := epoch_loss w;
     val_loss := loss_sum vl |}.
Proof.
  unfold validate. destruct (loader_iter _ _) as [bs g'].
  now rewrite validate_batch_fold.
Qed.

End WorkerSteps.

(** ** The group: lockstep batches *)

Lemma map_fmap {A B} (f : A -> B) (l : list A) : map f l = f <$> l.
Proof. reflexivity. Qed.

Lemma map_nth_seq {A} (l : list A) (d : A) :
  map (fun j => nth j l d) (seq 0 (length l)) = l.
Proof.
  induction l as [|x l IH]; simpl; [reflexivity|].
  f_equal. rewrite <- seq_shift, map_map. exact IH.
Qed.

Lemma In_alter {A} (f : A -> A) (k : nat) (l : list A) (x : A) :
  In x (alter f k l) -> In x l \/ exists y, In y l /\ x = f y.
Proof.
  revert k. induction l as [|a l IH]; intros k Hx; [destruct Hx|].
  destruct k as [|k]; simpl in Hx.
  - destruct Hx as [<-|Hx]; [right; exists a; simpl; auto | left; now right].
  - destruct Hx as [<-|Hx]; [left; now left|].
    destruct (IH _ Hx) as [H|(y & Hy & ->)]; [left; now right|].
    right. exists y. simpl. auto.
Qed.

Lemma map_by_alter {A} (R : list A -> Prop) (f : A -> A) (l : list A) :
  (forall l' k, R l' -> R (alter f k l')) -> R l -> R (map f l).
Proof.
  intros Hstep Hl.
  assert (H : forall k, k <= length l -> R (map f (take k l) ++ drop k l)).
  { induction k as [|k IH]; intros Hk; [exact Hl|].
    destruct (lookup_lt_is_Some_2 l k ltac:(lia)) as [x Hx].
    specialize (Hstep _ k (IH ltac:(lia))).
    rewrite (drop_S _ _ _ Hx) in Hstep.
    replace k with (length (map f (take k l)) + 0) in Hstep at 1
      by (rewrite length_map, length_take; lia).
    rewrite alter_app_r in Hstep. simpl in Hstep.
    rewrite (take_S_r _ _ _ Hx), map_app. simpl.
    now rewrite <- app_assoc. }
  specialize (H (length l) (le_n _)).
  now rewrite firstn_all, skipn_all, app_nil_r in H.
Qed.

Section Group.
Context {num : Type} {AR : Arith num} `{FW : Framework num}.

Lemma train_batch_lookup (ws : list Worker) (bs : list (list nat)) (k : nat)
  (w' : Worker) :
  train_batch ws bs !! k = Some w' ->
  exists w b, ws !! k = Some w /\ bs !! k = Some b /\
              w' = worker_batch (averaged_grads ws bs) w b.
Proof.
  unfold train_batch. intros H.
  apply lookup_zip_with_Some in H as (w & b & -> & Hw & Hb). eauto.
Qed.

Lemma train_batch_In (ws : list Worker) (bs : list (list nat)) (w' : Worker) :
  In w' (train_batch ws bs) ->
  exists w b, In w ws /\ w' = worker_batch (averaged_grads ws bs) w b.
Proof.
  intros H. apply list_elem_of_In, list_elem_of_lookup in H as [k Hk].
  apply train_batch_lookup in Hk as (w & b & Hw & _ & ->).
  exists w, b. split; [|reflexivity].
  apply list_elem_of_In. now apply list_elem_of_lookup_2 in Hw.
Qed.

Lemma fold_train_batch_lookup (steps : list (list (list nat)))
  (ws : list Worker) (k : nat) (w' : Worker) :
  fold_left train_batch steps ws !! k = Some w' ->
  exists w bas, ws !! k = Some w /\ w' = worker_batches bas w /\
                Forall2 (fun s x => s !! k = Some (fst x)) steps bas.
Proof.
  revert ws. induction steps as [|s steps IH]; intros ws H; simpl in H.
  - exists w', []. repeat split; [assumption|constructor].
  - apply IH in H as (w1 & bas & H1 & -> & HF).
    apply train_batch_lookup in H1 as (w & b & Hw & Hb & ->).
    exists w, ((b, averaged_grads ws s) :: bas).
    repeat split; [assumption|]. now constructor.
Qed.

Lemma lockstep_own_batches (bss : list (list (list nat)))
  (steps : list (list (list nat))) (k : nat) (bsk : list (list nat))
  (bas : list (list nat * list (Tensor (num := num)))) :
  lockstep bss = Some steps -> bss !! k = Some bsk ->
  Forall2 (fun s x => s !! k = Some (fst x)) steps bas ->
  map fst bas = bsk.
Proof.
  unfold lockstep. intros Hl Hk HF.
  destruct (forallb _ bss) eqn:Hall; [|discriminate].
  injection Hl as <-.
  rewrite forallb_forall in Hall.
  assert (Hlen : length bsk = length (hd [] bss)).
  { apply Nat.eqb_eq, Hall. apply list_elem_of_In.
    now apply list_elem_of_lookup_2 in Hk. }
  rewrite <- Hlen in HF. rewrite <- (map_nth_seq bsk []) at 1.
  revert HF. generalize (seq 0 (length bsk)) as js. intros js. revert bas.
  induction js as [|j js IH]; intros bas HF; inversion HF; subst; simpl;
    [reflexivity|].
  f_equal; [|now apply IH].
  match goal with H : _ !! k = Some _ |- _ => rename H into Hj end.
  rewrite map_fmap, list_lookup_fmap, Hk in Hj. simpl in Hj. congruence.
Qed.

End Group.

(** ** One epoch on the group *)

Section Epochs.
Context {num : Type} {AR : Arith num} `{FW : Framework num}.

Lemma begin_epoch_eq (i : nat) (w : Worker) :
  begin_epoch i w =
  let tl := loader_set_epoch (train_loader w) i in
  let it := loader_iter tl (generator (proc w)) in
  ({| proc := set_generator (proc w) (snd it);
      model := model w;
      train_loader := tl;
      test_loader := test_loader w;
      optimizer := optimizer w;
      epoch_loss := nzero;
      val_loss := val_loss w |}, fst it).
Proof.
  unfold begin_epoch. now destruct (loader_iter _ _).
Qed.

Lemma run_epoch_lookup (i : nat) (ws ws' : list Worker) (k : nat) (w' : Worker) :
  run_epoch i ws = Some ws' -> ws' !! k = Some w' ->
  exists w bas,
    ws !! k = Some w /\ map fst bas = snd (begin_epoch i w) /\
    w' = print_epoch i (validate (worker_batches bas (fst (begin_epoch i w)))).
Proof.
  unfold run_epoch. intros Hr Hk.
  destruct (lockstep _) as [steps|] eqn:Hl; [|discriminate].
  injection Hr as <-.
  rewrite map_fmap, list_lookup_fmap in Hk.
  destruct (_ !! k) as [wt|] eqn:Hwt; [|discriminate].
  injection Hk as <-.
  apply fold_train_batch_lookup in Hwt as (w0 & bas & Hw0 & -> & HF).
  rewrite !map_fmap, !list_lookup_fmap in Hw0.
  destruct (ws !! k) as [w|] eqn:Hw; [|discriminate].
  injection Hw0 as <-.
  exists w, bas. repeat split.
  apply (lockstep_own_batches _ _ k _ _ Hl); [|exact HF].
  now rewrite !map_fmap, !list_lookup_fmap, Hw.
Qed.

Lemma run_epoch_None (i : nat) (ws : list Worker) :
  run_epoch i ws = None <->
  lockstep (map (fun w => snd (begin_epoch i w)) ws) = None.
Proof.
  unfold run_epoch. rewrite map_map.
  destruct (lockstep _); split; congruence.
Qed.

(** *** Agreement of the replicas *)

Lemma setup_agree (args : list MainArgs) (m : Module) :
  (forall a, In a args -> arg_model a = m) -> replicas_agree (setup args).
Proof.
  intros Hm w1 w2 H1 H2. unfold setup in *.
  apply in_map_iff in H1 as (a1 & <- & Ha1).
  apply in_map_iff in H2 as (a2 & <- & Ha2). simpl.
  rewrite (Hm _ Ha1), (Hm _ Ha2).
  destruct args as [|a0 args]; [destruct Ha1|]. simpl. now split.
Qed.

Lemma alter_agree (f : Worker (num := num) -> Worker (num := num)) (k : nat)
  (ws : list Worker) :
  (forall w, store (proc (f w)) = store (proc w) /\ optimizer (f w) = optimizer w) ->
  replicas_agree ws -> replicas_agree (alter f k ws).
Proof.
  intros Hf Hws w1 w2 H1 H2.
  assert (Hin : forall w, In w (alter f k ws) ->
            exists w0, In w0 ws /\ store (proc w) = store (proc w0) /\
                       optimizer w = optimizer w0).
  { intros w Hw. apply In_alter in Hw as [Hw|(y & Hy & ->)].
    - now exists w.
    - exists y. split; [assumption|apply Hf]. }
  destruct (Hin _ H1) as (a1 & Ha1 & -> & ->).
  destruct (Hin _ H2) as (a2 & Ha2 & -> & ->).
  now apply Hws.
Qed.

Lemma train_batch_agree (ws : list Worker) (bs : list (list nat)) :
  replicas_agree ws -> replicas_agree (train_batch ws bs).
Proof.
  intros Hws w1 w2 H1 H2.
  apply train_batch_In in H1 as (a1 & b1 & Ha1 & ->).
  apply train_batch_In in H2 as (a2 & b2 & Ha2 & ->).
  rewrite !worker_batch_eq. simpl.
  destruct (Hws a1 a2 Ha1 Ha2) as [-> ->]. now split.
Qed.

Lemma begin_epoch_frame (i : nat) (w : Worker) :
  store (proc (fst (begin_epoch i w))) = store (proc w) /\
  optimizer (fst (begin_epoch i w)) = optimizer w.
Proof. rewrite begin_epoch_eq. now split. Qed.

Lemma validate_frame (i : nat) (w : Worker) :
  store (proc (print_epoch i (validate w))) = store (proc w) /\
  optimizer (print_epoch i (validate w)) = optimizer w.
Proof. rewrite validate_eq. now split. Qed.

Lemma reachable_agree (args : list MainArgs) (m : Module) (ws : list Worker) :
  (forall a, In a args -> arg_model a = m) ->
  reachable args ws -> replicas_agree ws.
Proof.
  intros Hm Hr. induction Hr as [|ws i k _ IH|ws bs _ IH|ws i k _ IH].
  - now apply (setup_agree _ m).
  - apply alter_agree; [apply begin_epoch_frame | exact IH].
  - now apply train_batch_agree.
  - apply alter_agree; [apply validate_frame | exact IH].
Qed.

Lemma fold_train_batch_reachable (args : list MainArgs)
  (steps : list (list (list nat))) (ws : list Worker) :
  reachable args ws -> reachable args (fold_left train_batch steps ws).
Proof.
  revert ws. induction steps as [|s steps IH]; intros ws Hr; simpl;
    [assumption|].
  apply IH. now constructor.
Qed.

Lemma run_epoch_reachable (args : list MainArgs) (i : nat)
  (ws ws' : list Worker) :
  run_epoch i ws = Some ws' -> reachable args ws -> reachable args ws'.
Proof.
  unfold run_epoch. intros Hr Hws.
  destruct (lockstep _) as [steps|]; [|discriminate]. injection Hr as <-.
  apply (map_by_alter (reachable args)).
  { intros l k Hl. now constructor. }
  apply fold_train_batch_reachable. rewrite map_map.
  apply (map_by_alter (reachable args)); [|assumption].
  intros l k Hl. now constructor.
Qed.

Lemma run_epochs_reachable (args : list MainArgs) (todo : list nat)
  (ws ws' : list Worker) :
  run_epochs todo ws = Some ws' -> reachable args ws -> reachable args ws'.
Proof.
  revert ws. induction todo as [|i todo IH]; intros ws Hr Hws; simpl in Hr.
  - now injection Hr as <-.
  - destruct (run_epoch i ws) as [ws1|] eqn:E; [|discriminate].
    apply (IH ws1 Hr). now apply (run_epoch_reachable _ i ws).
Qed.

End Epochs.

(** ** Batching *)

Lemma batch_sampler_concat (bs : nat) (cur l : list nat) :
  concat (batch_sampler bs cur l) = cur ++ l.
Proof.
  revert cur. induction l as [|i l IH]; intros cur; simpl.
  - destruct cur; simpl; now rewrite ?app_nil_r.
  - destruct (_ =? bs); simpl; rewrite IH; now rewrite <- app_assoc.
Qed.

Lemma batch_sampler_length (bs : nat) (cur1 cur2 l1 l2 : list nat) :
  length cur1 = length cur2 -> length l1 = length l2 ->
  length (batch_sampler bs cur1 l1) = length (batch_sampler bs cur2 l2).
Proof.
  revert cur1 cur2 l2. induction l1 as [|i l1 IH]; intros cur1 cur2 l2 Hc Hl;
    destruct l2 as [|j l2]; try discriminate; simpl.
  - destruct cur1, cur2; try discriminate; reflexivity.
  - rewrite !length_app, Hc. simpl. injection Hl as Hl.
    destruct (_ =? bs); simpl; [f_equal|]; apply IH;
      rewrite ?length_app; simpl; lia.
Qed.

Lemma batch_sampler_nonempty (bs : nat) (cur l : list nat) :
  Forall (fun b => 0 < length b) (batch_sampler bs cur l).
Proof.
  revert cur. induction l as [|i l IH]; intros cur; simpl.
  - destruct cur as [|c cur]; [constructor|].
    constructor; [simpl; lia|constructor].
  - destruct (_ =? bs); [constructor|]; try apply IH.
    rewrite length_app. simpl. lia.
Qed.

Lemma loader_iter_covers `{RS : RandomSource} (dl : DataLoader) (g : Rng) :
  sampler dl = None ->
  Permutation (concat (fst (loader_iter dl g))) (seq 0 (loader_len dl)).
Proof.
  intros Hs. unfold loader_iter. rewrite Hs.
  destruct (loader_shuffle dl).
  - destruct (draw_seed g) as [sd g']. simpl.
    rewrite batch_sampler_concat. apply randperm_perm.
  - simpl. now rewrite batch_sampler_concat.
Qed.

(** ** What one epoch does to a worker *)

Section EpochSummary.
Context {num : Type} {AR : Arith num} `{FW : Framework num}.

Lemma training_events_no_save (tl : list (list nat * num)) :
  Forall (fun ev => is_save ev = false) (training_events tl).
Proof.
  induction tl as [|x tl IH]; simpl; [constructor|].
  repeat (constructor; [reflexivity|]). exact IH.
Qed.

Lemma validation_events_no_save (vl : list (list nat * num)) :
  Forall (fun ev => is_save ev = false) (validation_events vl).
Proof.
  induction vl as [|x vl IH]; simpl; constructor; [reflexivity|exact IH].
Qed.

Lemma training_events_steps (tl : list (list nat * num)) :
  length (List.filter is_step (training_events tl)) = length tl.
Proof.
  induction tl as [|x tl IH]; simpl; [reflexivity|].
  now rewrite IH.
Qed.

Lemma validation_events_quiet (vl : list (list nat * num)) (ev : Event) :
  In ev (validation_events vl) -> ev <> Backward /\ ev <> Step.
Proof.
  unfold validation_events. intros H.
  apply in_map_iff in H as (x & <- & _). split; discriminate.
Qed.

Lemma run_epoch_summary (i : nat) (ws ws' : list Worker) (k : nat)
  (w' : Worker) :
  run_epoch i ws = Some ws' -> ws' !! k = Some w' ->
  exists (w : Worker) (tl : list (list nat * num)) (wt : Worker),
    ws !! k = Some w /\
    map fst tl = snd (begin_epoch i w) /\
    trace (proc wt) = trace (proc w) ++ training_events tl /\
    epoch_loss wt = loss_sum tl /\
    same_setting (fst (begin_epoch i w)) wt /\
    w' = print_epoch i (validate wt).
Proof.
  intros Hr Hk.
  destruct (run_epoch_lookup i ws ws' k w' Hr Hk) as (w & bas & Hw & Hb & ->).
  destruct (worker_batches_summary bas (fst (begin_epoch i w)))
    as (losses & Hlen & Htr & Hel & Hs).
  cbv zeta in *.
  exists w, (zip (map fst bas) losses), (worker_batches bas (fst (begin_epoch i w))).
  split; [assumption|]. split; [|split; [|split; [|split]]].
  - rewrite map_fmap, fst_zip by (rewrite length_map; lia). exact Hb.
  - rewrite Htr. now rewrite begin_epoch_eq.
  - rewrite Hel. now rewrite begin_epoch_eq.
  - exact Hs.
  - reflexivity.
Qed.

End EpochSummary.

(** ** The script runs to completion *)

Section Script.
Context {num : Type} {AR : Arith num} `{FW : Framework num}.

Lemma script_worker_batches (n t wsz k i : nat) (w : Worker) :
  script_worker n t wsz k w ->
  snd (begin_epoch i w)
  = batch_sampler 128 [] (epoch_indices (new_sampler n wsz k 42) i).
Proof.
  intros (_ & _ & [e He] & _). rewrite begin_epoch_eq. cbv zeta.
  rewrite He. reflexivity.
Qed.

Lemma lockstep_total (bss : list (list (list nat))) (L : nat) :
  (forall bs, In bs bss -> length bs = L) ->
  exists steps, lockstep bss = Some steps /\
                Forall (fun s => length s = length bss) steps.
Proof.
  intros HL. unfold lockstep.
  assert (Hall : forallb (fun bs => length bs =? length (hd [] bss)) bss = true).
  { apply forallb_forall. intros bs Hbs. apply Nat.eqb_eq.
    rewrite (HL bs Hbs). symmetry. apply HL.
    destruct bss; [destruct Hbs | now left]. }
  rewrite Hall. eexists. split; [reflexivity|].
  apply Forall_forall. intros s Hs. apply list_elem_of_In in Hs.
  apply in_map_iff in Hs as (j & <- & _). apply length_map.
Qed.

Lemma fold_train_batch_length (steps : list (list (list nat)))
  (ws : list Worker) :
  Forall (fun s => length s = length ws) steps ->
  length (fold_left train_batch steps ws) = length ws.
Proof.
  revert ws. induction steps as [|s steps IH]; intros ws HF; simpl;
    [reflexivity|].
  inversion HF as [|? ? Hs HF']; subst.
  assert (E : length (train_batch ws s) = length ws).
  { unfold train_batch. rewrite length_zip_with. lia. }
  rewrite IH; [exact E|]. now rewrite E.
Qed.

Lemma run_epoch_script_group (n t i : nat) (ws : list Worker) :
  script_group n t ws ->
  exists ws', run_epoch i ws = Some ws' /\ length ws' = length ws /\
              script_group n t ws'.
Proof.
  intros Hg.
  destruct (lockstep_total (map snd (map (begin_epoch i) ws))
              (length (batch_sampler 128 [] (repeat 0 (ceil_div n (length ws))))))
    as (steps & Hl & Hsteps).
  { intros bs Hbs. rewrite map_map in Hbs.
    apply in_map_iff in Hbs as (w & <- & Hw).
    apply list_elem_of_In, list_elem_of_lookup in Hw as [k Hk].
    rewrite (script_worker_batches n t (length ws) k i w (Hg k w Hk)).
    apply batch_sampler_length; [reflexivity|].
    pose proof (lookup_lt_Some _ _ _ Hk).
    rewrite repeat_length. apply epoch_indices_length; lia. }
  assert (Hr : run_epoch i ws
               = Some (map (fun w => print_epoch i (validate w))
                           (fold_left train_batch steps
                                      (map fst (map (begin_epoch i) ws))))).
  { unfold run_epoch. now rewrite Hl. }
  eexists. split; [exact Hr|].
  assert (Hlen : length (map (fun w => print_epoch i (validate w))
                   (fold_left train_batch steps (map fst (map (begin_epoch i) ws))))
                 = length ws).
  { rewrite length_map, fold_train_batch_length; rewrite !length_map;
      [reflexivity|].
    now rewrite !length_map in Hsteps. }
  split; [exact Hlen|].
  intros k w' Hk. rewrite Hlen.
  destruct (run_epoch_summary i ws _ k w' Hr Hk)
    as (w & tl & wt & Hw & _ & Htr & _ & Hs & ->).
  destruct (Hg k w Hw) as (H1 & H2 & [e H3] & H4 & H5 & H6).
  destruct Hs as (S1 & S2 & S3 & _ & _ & S6 & S7).
  rewrite begin_epoch_eq in S1, S2, S3, S6, S7. simpl in S1, S2, S3, S6, S7.
  unfold script_worker. rewrite validate_eq. simpl.
  rewrite S1, S2, S3, S6, S7.
  repeat split; try assumption.
  - exists i. rewrite H3. reflexivity.
  - rewrite Htr. repeat (apply Forall_app; split); try assumption.
    + apply training_events_no_save.
    + apply validation_events_no_save.
    + repeat constructor.
Qed.

Lemma run_epochs_script_group (n t : nat) (todo : list nat) (ws : list Worker) :
  script_group n t ws ->
  exists ws', run_epochs todo ws = Some ws' /\ length ws' = length ws /\
              script_group n t ws'.
Proof.
  revert ws. induction todo as [|i todo IH]; intros ws Hg; simpl.
  - now exists ws.
  - destruct (run_epoch_script_group n t i ws Hg) as (ws1 & -> & Hlen & Hg1).
    destruct (IH ws1 Hg1) as (ws' & Hr & Hlen' & Hg').
    exists ws'. split; [assumption|]. split; [congruence|assumption].
Qed.

End Script.

Section ScriptResult.
Context {num : Type} {AR : Arith num} `{FW : Framework num}.

Lemma setup_script_group (n t : nat) (ls : list Launch) :
  script_group n t (setup (script_args n t ls)).
Proof.
  intros k w Hk.
  assert (Hlen : length (setup (script_args n t ls)) = length ls).
  { unfold setup, script_args. now rewrite length_map, length_imap. }
  rewrite Hlen. unfold setup in Hk.
  rewrite map_fmap, list_lookup_fmap in Hk.
  unfold script_args in Hk at 2. rewrite list_lookup_imap in Hk.
  destruct (ls !! k) as [l|] eqn:El; [|discriminate].
  injection Hk as <-. unfold script_worker. simpl.
  split; [reflexivity|]. split; [reflexivity|].
  split; [now exists 0|]. split; [reflexivity|].
  split; [|constructor].
  destruct ls as [|l0 ls]; [discriminate|]. reflexivity.
Qed.

Lemma mapM_module_attr (ws : list (Worker (num := num))) :
  (forall w, In w ws -> model w = DistributedDataParallel create_model) ->
  mapM (fun w => (fun m => (m, proc w)) <$> module_attr (model w)) ws
  = Some (map (fun w => (create_model, proc w)) ws).
Proof.
  induction ws as [|w ws IH]; intros Hm; [reflexivity|].
  simpl. rewrite (Hm w (or_introl eq_refl)). simpl.
  rewrite IH; [reflexivity|]. intros w' Hw'. apply Hm. now right.
Qed.

Lemma main_script (n t epochs : nat) (ls : list Launch) :
  exists ws,
    run_epochs (seq 0 epochs) (setup (script_args n t ls)) = Some ws /\
    length ws = length ls /\ script_group n t ws /\
    main epochs (script_args n t ls)
    = Some (map (fun w => (create_model, proc w)) ws).
Proof.
  destruct (run_epochs_script_group n t (seq 0 epochs) _
              (setup_script_group n t ls)) as (ws & Hr & Hlen & Hg).
  exists ws. split; [exact Hr|]. split.
  { rewrite Hlen. unfold setup, script_args.
    now rewrite length_map, length_imap. }
  split; [exact Hg|].
  unfold main. rewrite Hr. apply mapM_module_attr.
  intros w Hw. apply list_elem_of_In, list_elem_of_lookup in Hw as [k Hk].
  now destruct (Hg k w Hk) as (_ & Hm & _).
Qed.

Lemma script_result (n t : nat) (ls : list Launch) :
  exists ws,
    run_epochs (seq 0 10) (setup (script_args n t ls)) = Some ws /\
    length ws = length ls /\ script_group n t ws /\
    script n t ls
    = Some (map (fun w => save_if_rank0 (create_model, proc w)) ws).
Proof.
  destruct (main_script n t 10 ls) as (ws & Hr & Hlen & Hg & Hm).
  exists ws. repeat (split; [assumption|]).
  unfold script. rewrite Hm. now rewrite map_map.
Qed.

Lemma state_dict_create_model (st : list (Tensor (num := num))) :
  length st = 5 ->
  exists t0 t1 t2 t3 t4,
    st = [t0; t1; t2; t3; t4] /\
    state_dict create_model st
    = [("0.weight"%string, t0); ("0.bias"%string, t1);
       ("3.weight"%string, t2); ("3.bias"%string, t3);
       ("5.weight"%string, t4)].
Proof.
  intros H.
  destruct st as [|t0 [|t1 [|t2 [|t3 [|t4 [|]]]]]]; try discriminate.
  exists t0, t1, t2, t3, t4. split; reflexivity.
Qed.

End ScriptResult.

(** ** C9: the replicas stay identical *)

Section Replicas.
Context {num : Type} {AR : Arith num} `{FW : Framework num}.

(** C9: from the wrapping of the model on, at every point the group reaches
    -- in particular after every training batch and at every epoch boundary
    of [main] -- all workers hold the same parameter tensors (and optimizer
    state).  Starting an epoch and the validation pass leave the parameters
    of a worker as they are; a training batch replaces them, on every
    worker, by the optimizer step on the same averaged gradients. *)
Theorem replicas_identical_at_batch_boundaries
  (args : list MainArgs) (m : Module) :
  (forall a, In a args -> arg_model a = m) ->
  (forall ws, reachable args ws -> replicas_agree ws) /\
  (forall epochs ws,
      run_epochs (seq 0 epochs) (setup args) = Some ws -> reachable args ws) /\
  (forall i w,
      store (proc (fst (begin_epoch i w))) = store (proc w) /\
      store (proc (print_epoch i (validate w))) = store (proc w)) /\
  (forall ws bs k w',
      train_batch ws bs !! k = Some w' ->
      exists w, ws !! k = Some w /\
        store (proc w')
        = fst (sgd_step (optimizer w) (averaged_grads ws bs) (store (proc w)))).
Proof.
  intros Hm. split; [|split; [|split]].
  - intros ws Hr. now apply (reachable_agree args m).
  - intros epochs ws Hr.
    apply (run_epochs_reachable args _ _ _ Hr). constructor.
  - intros i w. split; [apply begin_epoch_frame | apply validate_frame].
  - intros ws bs k w' Hk.
    apply train_batch_lookup in Hk as (w & b & Hw & _ & ->).
    exists w. split; [assumption|]. now rewrite worker_batch_eq.
Qed.

End Replicas.

Lemma replicas_identical_witness :
  let args := script_args (num := Q) 4 2
                [example_launch 0 0 1%Q; example_launch 1 5 3%Q] in
  (forall ws, reachable args ws -> replicas_agree ws) /\
  (forall epochs ws,
      run_epochs (seq 0 epochs) (setup args) = Some ws -> reachable args ws) /\
  (forall i w,
      store (proc (fst (begin_epoch i w))) = store (proc w) /\
      store (proc (print_epoch i (validate w))) = store (proc w)) /\
  (forall ws bs k w',
      train_batch ws bs !! k = Some w' ->
      exists w, ws !! k = Some w /\
        store (proc w')
        = fst (sgd_step (optimizer w) (averaged_grads ws bs) (store (proc w)))).
Proof.
  intros args.
  apply (replicas_identical_at_batch_boundaries args create_model).
  intros a [<-|[<-|[]]]; reflexivity.
Defined.

Example replicas_after_one_epoch :
  option_map (map (fun r => map (map Qred) (store (snd r))))
    (main (num := Q) (FW := bowl) 1
       (script_args 4 2 [example_launch 0 0 1%Q; example_launch 1 5 3%Q]))
  = Some [ [[(49 # 50)%Q]; []; []; []; []]; [[(49 # 50)%Q]; []; []; []; []] ].
Proof. vm_compute. reflexivity. Qed.

(** ** The optimizer of [main] *)

Section OptimizerOfMain.
Context {num : Type} {AR : Arith num} `{FW : Framework num}.

(** The optimizer of every worker stays the one built on line 71. *)
Lemma reachable_optimizer (args : list MainArgs) (ws : list Worker) :
  reachable args ws ->
  forall w, In w ws ->
    exists a, In a args /\
      optimizer w
      = optim_SGD (parameters (DistributedDataParallel (arg_model a)))
                  (ndiv (nof_nat 1) (nof_nat 100)).
Proof.
  intros Hr. induction Hr as [|ws i k _ IH|ws bs _ IH|ws i k _ IH]; intros w Hw.
  - unfold setup in Hw. apply in_map_iff in Hw as (a & <- & Ha).
    exists a. now split.
  - apply In_alter in Hw as [Hw|(y & Hy & ->)]; [now apply IH|].
    destruct (IH y Hy) as (a & Ha & E). exists a. split; [assumption|].
    now rewrite (proj2 (begin_epoch_frame i y)).
  - apply train_batch_In in Hw as (w0 & b & Hw0 & ->).
    destruct (IH w0 Hw0) as (a & Ha & E). exists a. split; [assumption|].
    rewrite worker_batch_eq. simpl. rewrite E. now rewrite optim_SGD_step.
  - apply In_alter in Hw as [Hw|(y & Hy & ->)]; [now apply IH|].
    destruct (IH y Hy) as (a & Ha & E). exists a. split; [assumption|].
    now rewrite (proj2 (validate_frame i y)).
Qed.

Lemma train_batch_descends (args : list MainArgs) (m : Module)
  (ws : list Worker) (bs : list (list nat)) (k i : nat) (w w' : Worker)
  (p g : Tensor) :
  (forall a, In a args -> arg_model a = m) ->
  NoDup (parameters (DistributedDataParallel m)) ->
  reachable args ws ->
  ws !! k = Some w -> train_batch ws bs !! k = Some w' ->
  In i (parameters (DistributedDataParallel m)) ->
  store (proc w) !! i = Some p -> averaged_grads ws bs !! i = Some g ->
  store (proc w') !! i
  = Some (tensor_add p (nneg (ndiv (nof_nat 1) (nof_nat 100))) g) /\
  optimizer w' = optimizer w /\
  optimizer w
  = optim_SGD (parameters (DistributedDataParallel m))
              (ndiv (nof_nat 1) (nof_nat 100)).
Proof.
  intros Hm Hnd Hr Hw Hw' Hi Hp Hg.
  destruct (reachable_optimizer args ws Hr w) as (a & Ha & E).
  { apply list_elem_of_In. now apply list_elem_of_lookup_2 in Hw. }
  rewrite (Hm a Ha) in E.
  apply train_batch_lookup in Hw' as (w0 & b & Hw0 & _ & ->).
  assert (w0 = w) as -> by congruence.
  rewrite worker_batch_eq. simpl. rewrite E, optim_SGD_step. simpl.
  split; [|split; reflexivity].
  now apply descend_fold_lookup.
Qed.

End OptimizerOfMain.

(** ** C4: the train-loss metric *)

Lemma loss_fold_Q_const (tl : list (list nat * Q)) (t acc : Q) :
  Forall (fun x => (snd x / inject_Z (Z.of_nat (length (fst x))) == t)%Q) tl ->
  (fold_left (fun acc x => nadd acc (ndiv (snd x) (nof_nat (length (fst x)))))
             tl acc
   == acc + inject_Z (Z.of_nat (length tl)) * t)%Q.
Proof.
  intros HF. revert acc. induction HF as [|x tl Hx _ IH]; intros acc.
  - simpl. ring.
  - cbn [fold_left length]. rewrite IH. simpl nadd. simpl ndiv. simpl nof_nat.
    rewrite Hx, Nat2Z.inj_succ. unfold Z.succ. rewrite inject_Z_plus. ring.
Qed.

Lemma loss_sum_Q_grows (tl1 tl2 : list (list nat * Q)) (t : Q) :
  Forall (fun x => (snd x / inject_Z (Z.of_nat (length (fst x))) == t)%Q) tl1 ->
  Forall (fun x => (snd x / inject_Z (Z.of_nat (length (fst x))) == t)%Q) tl2 ->
  ~ (t == 0)%Q -> length tl1 < length tl2 ->
  (Qabs (loss_sum tl1) < Qabs (loss_sum tl2))%Q.
Proof.
  intros H1 H2 Ht Hlen. unfold loss_sum.
  rewrite (loss_fold_Q_const tl1 t _ H1), (loss_fold_Q_const tl2 t _ H2).
  simpl nzero. rewrite !Qplus_0_l, !Qabs_Qmult.
  assert (Hk : forall k, (Qabs (inject_Z (Z.of_nat k)) == inject_Z (Z.of_nat k))%Q).
  { intros k. apply Qabs_pos. change 0%Q with (inject_Z 0).
    rewrite <- Zle_Qle. lia. }
  rewrite !Hk.
  apply Qmult_lt_compat_r.
  - destruct (Q_dec t 0) as [[Hlt|Hgt]|Heq]; [| |contradiction].
    + rewrite Qabs_neg by lra. lra.
    + rewrite Qabs_pos by lra. lra.
  - rewrite <- Zlt_Qlt. lia.
Qed.

Lemma loss_sum_snoc {num : Type} {AR : Arith num}
  (tl : list (list nat * num)) (x : list nat * num) :
  loss_sum (tl ++ [x])
  = nadd (loss_sum tl) (ndiv (snd x) (nof_nat (length (fst x)))).
Proof. unfold loss_sum. now rewrite fold_left_app. Qed.

(** C4, as stated, fails: on one worker whose loss is 1 on every batch, an
    epoch over 129 items has two batches (of 128 items and of 1) and the
    train loss 1/128 + 1/1 = 1.0078125, an epoch over 384 items has three
    batches of 128 and the train loss 3/128 = 0.0234375: more batches of the
    same loss, and a sum of smaller magnitude. *)
Lemma more_batches_smaller_train_loss :
  option_map (map (fun w => (omap training_loss (trace (proc w)), epoch_loss w)))
    (run_epoch (FW := unit_loss) 0
       (setup (num := float) (script_args 129 1 [example_launch 0 0 1%float])))
  = Some [([1%float; 1%float], 1.0078125%float)] /\
  option_map (map (fun w => (omap training_loss (trace (proc w)), epoch_loss w)))
    (run_epoch (FW := unit_loss) 0
       (setup (num := float) (script_args 384 1 [example_launch 0 0 1%float])))
  = Some [([1%float; 1%float; 1%float], 0.0234375%float)] /\
  PrimFloat.ltb (PrimFloat.abs 0.0234375%float) (PrimFloat.abs 1.0078125%float)
  = true.
Proof. split; [|split]; vm_compute; reflexivity. Qed.

(** C4 (amended): at the end of an epoch the train-loss of a worker -- the
    value it prints -- is the left-to-right sum, from 0, of
    [loss / batch size] over the training batches of that epoch, the losses
    being those of the forward passes recorded in its trace; nothing divides
    by the number of batches, every further batch adds its own term.  That
    more batches give a sum of larger magnitude holds under further
    conditions only: in exact arithmetic, of two epochs whose batches all
    contribute one and the same non-zero term [loss / batch size], the one
    with more batches has the sum of larger magnitude. *)
Theorem train_loss_is_unnormalised_sum :
  (forall (num : Type) (AR : Arith num) (RS : RandomSource)
          (FW : Framework (num := num)) (i : nat) (ws ws' : list Worker)
          (k : nat) (w' : Worker),
      run_epoch i ws = Some ws' -> ws' !! k = Some w' ->
      exists (w : Worker) (tl vl : list (list nat * num)),
        ws !! k = Some w /\
        map fst tl = snd (begin_epoch i w) /\
        trace (proc w')
        = trace (proc w) ++ training_events tl ++ validation_events vl
          ++ [Print i (loss_sum tl) (loss_sum vl)] /\
        epoch_loss w' = loss_sum tl) /\
  (forall (num : Type) (AR : Arith num) (tl : list (list nat * num))
          (x : list nat * num),
      loss_sum (tl ++ [x])
      = nadd (loss_sum tl) (ndiv (snd x) (nof_nat (length (fst x))))) /\
  (forall (tl1 tl2 : list (list nat * Q)) (t : Q),
      Forall (fun x => (snd x / inject_Z (Z.of_nat (length (fst x))) == t)%Q) tl1 ->
      Forall (fun x => (snd x / inject_Z (Z.of_nat (length (fst x))) == t)%Q) tl2 ->
      ~ (t == 0)%Q -> length tl1 < length tl2 ->
      (Qabs (loss_sum tl1) < Qabs (loss_sum tl2))%Q).
Proof.
  split; [|split; [intros; apply loss_sum_snoc | exact loss_sum_Q_grows]].
  intros num AR RS FW i ws ws' k w' Hr Hk.
  destruct (run_epoch_summary i ws ws' k w' Hr Hk)
    as (w & tl & wt & Hw & Hb & Htr & Hel & _ & ->).
  exists w, tl,
    (map (fun b => (b, eval_forward (store (proc wt)) b))
         (fst (loader_iter (test_loader wt) (generator (proc wt))))).
  split; [assumption|]. split; [assumption|].
  unfold print_epoch. rewrite validate_eq. simpl.
  rewrite Htr, Hel. split; [|reflexivity].
  now rewrite <- !app_assoc.
Qed.

Lemma train_loss_witness :
  (let ws := setup (num := float) (script_args 4 1 [example_launch 0 0 3%float]) in
   let ws' := map (fun w => print_epoch 0 (validate (FW := bowl) w))
                  (train_batch ws [[2; 3; 0; 1]]) in
   let w' := nth 0 ws' (example_worker 128 4 1 1 0 0 0 3%float) in
   exists (w : Worker) (tl vl : list (list nat * float)),
     ws !! 0 = Some w /\
     map fst tl = snd (begin_epoch 0 w) /\
     trace (proc w')
     = trace (proc w) ++ training_events tl ++ validation_events vl
       ++ [Print 0 (loss_sum tl) (loss_sum vl)] /\
     epoch_loss w' = loss_sum tl) /\
  loss_sum ([([0; 1], 3%float)] ++ [([2], 5%float)])
  = nadd (loss_sum [([0; 1], 3%float)])
         (ndiv (snd ([2], 5%float)) (nof_nat (length (fst ([2], 5%float))))) /\
  Qlt (Qabs (loss_sum [([0; 1], 3%Q)]))
      (Qabs (loss_sum [([0; 1], 3%Q); ([2; 3], 3%Q)])).
Proof.
  pose proof train_loss_is_unnormalised_sum as (H1 & H2 & H3).
  split; [|split].
  - intros ws ws' w'.
    apply (H1 float float_arith rotation_source bowl 0 ws ws' 0 w');
      reflexivity.
  - apply (H2 float float_arith).
  - apply (H3 [([0; 1], 3%Q)] [([0; 1], 3%Q); ([2; 3], 3%Q)] (3 # 2)%Q).
    + repeat constructor.
    + repeat constructor.
    + intros E. discriminate.
    + simpl. lia.
Defined.

Example epoch_loss_of_one_batch :
  option_map (map epoch_loss)
    (run_epoch (FW := bowl) 0
       (setup (num := float) (script_args 4 1 [example_launch 0 0 3%float])))
  = Some [2.25%float].
Proof. reflexivity. Qed.

(** ** C5: the validation pass *)

(** C5: the validation pass of a worker changes neither its parameter
    tensors nor its optimizer (nor the model or the train loss); it appends
    to the trace one forward pass per batch of the test loader and no
    backward pass or optimizer step; the batches are the whole test set
    [0, t), each index once; and the validation loss is the sum, from 0, of
    [loss / batch size] over these batches, every loss being evaluated on
    the unchanged parameters. *)
Theorem validation_pass_is_read_only {num : Type} {AR : Arith num}
  `{FW : Framework num} (w : Worker) (bs n t wsz r : nat) :
  test_loader w = snd (fst (create_data_loaders bs n t wsz r)) ->
  let batches := fst (loader_iter (test_loader w) (generator (proc w))) in
  let vl := map (fun b => (b, eval_forward (store (proc w)) b)) batches in
  store (proc (validate w)) = store (proc w) /\
  optimizer (validate w) = optimizer w /\
  model (validate w) = model w /\
  epoch_loss (validate w) = epoch_loss w /\
  trace (proc (validate w)) = trace (proc w) ++ validation_events vl /\
  (forall ev, In ev (validation_events vl) -> ev <> Backward /\ ev <> Step) /\
  Permutation (concat batches) (seq 0 t) /\
  val_loss (validate w) = loss_sum vl.
Proof.
  intros Ht batches vl. rewrite validate_eq. simpl.
  repeat (split; [reflexivity|]).
  split; [apply validation_events_quiet|].
  split; [|reflexivity].
  unfold batches.
  replace t with (loader_len (test_loader w)) by now rewrite Ht.
  apply loader_iter_covers. now rewrite Ht.
Qed.

Lemma validation_pass_witness :
  let w := example_worker (num := float) 2 4 3 2 1 0 5 3%float in
  let batches := fst (loader_iter (test_loader w) (generator (proc w))) in
  let vl := map (fun b => (b, eval_forward (Framework := bowl) (store (proc w)) b)) batches in
  store (proc (validate w)) = store (proc w) /\
  optimizer (validate w) = optimizer w /\
  model (validate w) = model w /\
  epoch_loss (validate w) = epoch_loss w /\
  trace (proc (validate w)) = trace (proc w) ++ validation_events vl /\
  (forall ev, In ev (validation_events vl) -> ev <> Backward /\ ev <> Step) /\
  Permutation (concat batches) (seq 0 3) /\
  val_loss (validate w) = loss_sum vl.
Proof.
  intros w.
  apply (validation_pass_is_read_only (FW := bowl) w 2 4 3 2 1).
  reflexivity.
Defined.

Example validation_of_three_items :
  let w := example_worker (num := float) 2 4 3 2 1 0 5 3%float in
  fst (loader_iter (test_loader w) (generator (proc w))) = [[2; 0]; [1]] /\
  val_loss (validate (FW := bowl) w) = 13.5%float /\
  trace (proc (validate (FW := bowl) w))
  = [Forward false [2; 0] 9%float; Forward false [1] 9%float].
Proof. repeat split. Qed.

(** ** C8: a non-finite loss *)

(** C8, as stated, fails: one worker, four training items, a weight of
    2^1023.  The loss of the first batch overflows to infinity; the run
    nevertheless takes the optimizer step of that batch and of the next
    epoch's batch and returns normally. *)
Lemma nonfinite_loss_training_continues :
  exists rs p pre b l post,
    main (num := float) (FW := bowl) 2
         (script_args 4 1 [example_launch 0 0 0x1p+1023%float])
    = Some rs /\
    rs !! 0 = Some (create_model, p) /\
    trace p = pre ++ Forward true b l :: post /\
    nfinite l = false /\
    length (List.filter is_step post) = 2.
Proof.
  eexists _, _, [], _, _, _.
  split; [vm_compute; reflexivity|].
  split; [reflexivity|].
  split; [reflexivity|].
  split; reflexivity.
Qed.

Example parameters_after_nonfinite_loss :
  option_map (map (fun r => map (map PrimFloat.is_nan) (store (snd r))))
    (main (num := float) (FW := bowl) 2
       (script_args 4 1 [example_launch 0 0 0x1p+1023%float]))
  = Some [[[true]; []; []; []; []]].
Proof. vm_compute. reflexivity. Qed.

(** C8 (amended): [main] has no check on the loss.  An epoch fails only
    when the workers do not have the same number of batches; otherwise every
    training batch of a worker, whatever its loss, finite or not, is followed
    by its backward pass and its optimizer step -- as many steps as batches
    -- and its [loss / batch size] goes into the train loss. *)
Theorem training_has_no_loss_check :
  forall (num : Type) (AR : Arith num) (RS : RandomSource)
         (FW : Framework (num := num)) (i : nat) (ws : list Worker),
    (run_epoch i ws = None <->
     lockstep (map (fun w => snd (begin_epoch i w)) ws) = None) /\
    (forall ws' k w',
        run_epoch i ws = Some ws' -> ws' !! k = Some w' ->
        exists (w : Worker) (tl : list (list nat * num)) (rest : list Event),
          ws !! k = Some w /\
          map fst tl = snd (begin_epoch i w) /\
          trace (proc w') = trace (proc w) ++ training_events tl ++ rest /\
          length (List.filter is_step (training_events tl))
          = length (snd (begin_epoch i w)) /\
          epoch_loss w' = loss_sum tl).
Proof.
  intros num AR RS FW i ws. split; [apply run_epoch_None|].
  intros ws' k w' Hr Hk.
  destruct (run_epoch_summary i ws ws' k w' Hr Hk)
    as (w & tl & wt & Hw & Hb & Htr & Hel & _ & ->).
  exists w, tl. eexists.
  split; [assumption|]. split; [assumption|].
  unfold print_epoch. rewrite validate_eq. simpl.
  rewrite Htr, Hel, <- !app_assoc.
  split; [reflexivity|]. split; [|reflexivity].
  now rewrite training_events_steps, <- Hb, length_map.
Qed.

(** ** C6 and C10: the checkpoint *)

Section Checkpoint.
Context {num : Type} {AR : Arith num} `{FW : Framework num}.


(** What the script leaves on the process of rank [k]: the state [main]
    returned, followed on rank 0 by the write of the base model's state. *)
Lemma script_process (n t : nat) (ls : list Launch) :
  exists ws ps,
    run_epochs (seq 0 10) (setup (script_args n t ls)) = Some ws /\
    script n t ls = Some ps /\ length ps = length ls /\
    forall k p, ps !! k = Some p ->
      exists w, ws !! k = Some w /\
        script_worker n t (length ls) k w /\
        p = emit (proc w)
              (if k =? 0
               then [Save "model.pt" (state_dict create_model (store (proc w)))]
               else []).
Proof.
  destruct (script_result n t ls) as (ws & Hr & Hlen & Hg & Hs).
  exists ws. eexists. split; [exact Hr|]. split; [exact Hs|].
  split; [now rewrite length_map|].
  intros k p Hk. rewrite map_fmap, list_lookup_fmap in Hk.
  destruct (ws !! k) as [w|] eqn:Hw; [|discriminate].
  injection Hk as <-. exists w. split; [reflexivity|].
  pose proof (Hg k w Hw) as Hsw. rewrite Hlen in Hsw.
  split; [exact Hsw|].
  destruct Hsw as (Hrank & _). unfold save_if_rank0. rewrite Hrank.
  destruct (k =? 0); [reflexivity|].
  unfold emit. rewrite app_nil_r. now destruct (proc w).
Qed.


(** C10: [main] returns, on every process, the module it was given -- the
    base model, not the wrapper around it.  The checkpoint rank 0 writes is
    therefore keyed by the base model's own parameter names, none of which
    carries the wrapper's [module.] prefix, and a plain [create_model()]
    loads it under the strict key check, which rejects the state of the
    wrapper. *)
Theorem checkpoint_has_base_model_names (n t : nat) (ls : list Launch) :
  (exists rs, main 10 (script_args n t ls) = Some rs /\
              length rs = length ls /\
              forall r, In r rs -> fst r = create_model) /\
  exists ps, script n t ls = Some ps /\
    forall p, ps !! 0 = Some p ->
      exists pre sd,
        trace p = pre ++ [Save "model.pt" sd] /\
        map fst sd = ["0.weight"; "0.bias"; "3.weight"; "3.bias"; "5.weight"]%string /\
        map fst sd = map fst (named_parameters "" create_model) /\
        map snd sd = store p /\
        Forall (fun key => String.prefix "module." key = false) (map fst sd) /\
        load_state_dict create_model sd = Some sd /\
        Forall (fun key => String.prefix "module." key = true)
               (map fst (state_dict (DistributedDataParallel create_model) (store p))) /\
        load_state_dict create_model
          (state_dict (DistributedDataParallel create_model) (store p)) = None.
Proof.
  split.
  { destruct (main_script n t 10 ls) as (ws & _ & Hlen & _ & Hm).
    eexists. split; [exact Hm|]. split; [now rewrite length_map|].
    intros r Hr. apply in_map_iff in Hr as (w & <- & _). reflexivity. }
  destruct (script_process n t ls) as (ws & ps & _ & Hs & _ & Hp).
  exists ps. split; [assumption|].
  intros p Hk. destruct (Hp 0 p Hk) as (w & _ & Hsw & ->).
  destruct Hsw as (_ & _ & _ & _ & Hst & _). simpl.
  destruct (state_dict_create_model (store (proc w)) Hst)
    as (t0 & t1 & t2 & t3 & t4 & Est & Esd).
  exists (trace (proc w)), (state_dict create_model (store (proc w))).
  split; [reflexivity|]. rewrite Esd, Est.
  repeat split; repeat constructor.
Qed.

End Checkpoint.

Example script_of_three_workers :
  option_map
    (map (fun p => (proc_rank p, local_rank p,
                    length (List.filter is_save (trace p)),
                    length (List.filter is_step (trace p)))))
    (script (num := float) (FW := bowl) 7 3
       [example_launch 0 0 3%float; example_launch 1 5 2%float;
        example_launch 0 9 1%float])
  = Some [(0, 0, 1, 10); (1, 1, 0, 10); (2, 0, 0, 10)].
Proof. vm_compute. reflexivity. Qed.

(** * Further properties of the script *)

(** ** The partitions of an epoch, with multiplicity *)

Lemma every_nth_app_chunk {A} (w r : nat) (c l : list A) :
  length c = w -> r < w ->
  every_nth w r (c ++ l) = option_list (c !! r) ++ every_nth w r l.
Proof.
  intros Hc Hr. assert (Hw : 0 < w) by lia.
  destruct (lookup_lt_is_Some_2 c r ltac:(lia)) as [x Hx]. rewrite Hx. simpl.
  apply list_eq. intros k. rewrite every_nth_lookup by assumption.
  destruct k as [|k]; simpl.
  - rewrite Nat.add_0_r. now rewrite lookup_app_l by lia.
  - rewrite every_nth_lookup by assumption.
    rewrite lookup_app_r by lia. f_equal. lia.
Qed.

Lemma concat_map_app {A B} (f g : A -> list B) (rs : list A) :
  Permutation (concat (map (fun r => f r ++ g r) rs))
              (concat (map f rs) ++ concat (map g rs)).
Proof.
  induction rs as [|r rs IH]; simpl; [reflexivity|].
  rewrite IH, <- !app_assoc. apply Permutation_app_head.
  rewrite !app_assoc. apply Permutation_app_tail, Permutation_app_comm.
Qed.

Lemma concat_lookups {A} (c : list A) :
  concat (map (fun r => option_list (c !! r)) (seq 0 (length c))) = c.
Proof.
  induction c as [|x c IH]; simpl; [reflexivity|].
  f_equal. rewrite <- seq_shift, map_map. exact IH.
Qed.

Lemma concat_strides {A} (w m : nat) (l : list A) :
  0 < w -> length l = m * w ->
  Permutation (concat (map (fun r => every_nth w r l) (seq 0 w))) l.
Proof.
  intros Hw. revert l. induction m as [|m IH]; intros l Hl.
  - destruct l; [|discriminate]. simpl.
    induction (seq 0 w) as [|r rs IHr]; simpl; [reflexivity|exact IHr].
  - assert (Hc : length (firstn w l) = w) by (rewrite length_firstn; lia).
    assert (Hd : length (skipn w l) = m * w) by (rewrite length_skipn; lia).
    apply Permutation_trans with (firstn w l ++ skipn w l);
      [|now rewrite firstn_skipn].
    apply Permutation_trans
      with (concat (map (fun r => option_list (firstn w l !! r)) (seq 0 w))
            ++ concat (map (fun r => every_nth w r (skipn w l)) (seq 0 w))).
    + rewrite <- concat_map_app.
      apply Permutation_refl'. f_equal. apply map_ext_in.
      intros r Hin. apply in_seq in Hin.
      rewrite <- (firstn_skipn w l) at 1.
      apply every_nth_app_chunk; [assumption|lia].
    + apply Permutation_app; [|now apply IH].
      pose proof (concat_lookups (firstn w l)) as E. rewrite Hc in E.
      now rewrite E.
Qed.

(** X1: Taken together, the partitions of the ranks in one epoch are the
    epoch's permutation followed by its first [ceil(n/w) * w - n] entries:
    with at least as many items as workers, fewer than [w] indices are drawn
    twice in the epoch -- the head of the permutation -- and every other
    index exactly once. *)
Theorem partitions_are_permutation_plus_head `{RS : RandomSource}
  (n w sd e : nat) :
  0 < w -> w <= n ->
  ceil_div n w * w - n < w /\
  Permutation
    (concat (map (fun r => epoch_indices (new_sampler n w r sd) e) (seq 0 w)))
    (randperm (sd + e) n ++ firstn (ceil_div n w * w - n) (randperm (sd + e) n)).
Proof.
  intros Hw Hn.
  assert (Hpad : ceil_div n w * w - n < w).
  { unfold ceil_div.
    pose proof (Nat.div_mod (n + w - 1) w ltac:(lia)).
    pose proof (Nat.mod_upper_bound (n + w - 1) w ltac:(lia)). nia. }
  split; [exact Hpad|].
  set (s := set_epoch (new_sampler n w 0 sd) e).
  assert (E : padded_indices s
              = randperm (sd + e) n
                ++ firstn (ceil_div n w * w - n) (randperm (sd + e) n)).
  { unfold padded_indices, s. simpl. unfold total_size, num_samples. simpl.
    rewrite (Permutation_length (randperm_perm (sd + e) n)), length_seq.
    destruct (Nat.leb_spec (ceil_div n w * w - n) n); [reflexivity|lia]. }
  rewrite <- E.
  rewrite (map_ext _ (fun r => every_nth w r (padded_indices s))).
  - apply (concat_strides w (ceil_div n w)); [assumption|].
    unfold s. now rewrite padded_indices_length.
  - intros r. now apply epoch_indices_unfold.
Qed.

Lemma partitions_are_permutation_plus_head_witness :
  5 * 2 - 9 < 2 /\
  Permutation
    (concat (map (fun r => epoch_indices (RS := rotation_source)
                             (new_sampler 9 2 r 42) 1) (seq 0 2)))
    (rotation 43 9 ++ firstn (5 * 2 - 9) (rotation 43 9)).
Proof.
  apply (partitions_are_permutation_plus_head (RS := rotation_source) 9 2 42 1);
    lia.
Defined.

(** ** Batches *)

Lemma ceil_div_add_step (x bs : nat) :
  0 < bs -> ceil_div (bs + x) bs = S (ceil_div x bs).
Proof.
  intros Hb. unfold ceil_div.
  replace (bs + x + bs - 1) with (x + bs - 1 + 1 * bs) by lia.
  rewrite Nat.div_add by lia. lia.
Qed.

Lemma ceil_div_small (x bs : nat) : 0 < x -> x <= bs -> ceil_div x bs = 1.
Proof.
  intros Hx Hb. unfold ceil_div.
  replace (x + bs - 1) with (x - 1 + 1 * bs) by lia.
  rewrite Nat.div_add by lia. rewrite Nat.div_small by lia. reflexivity.
Qed.

Lemma batch_sampler_count (bs : nat) (cur l : list nat) :
  0 < bs -> length cur < bs ->
  length (batch_sampler bs cur l) = ceil_div (length cur + length l) bs.
Proof.
  intros Hb. revert cur. induction l as [|i l IH]; intros cur Hc; simpl.
  - rewrite Nat.add_0_r. destruct cur as [|c cur]; simpl.
    + unfold ceil_div. simpl. now rewrite Nat.div_small by lia.
    + symmetry. apply ceil_div_small; simpl in *; lia.
  - rewrite length_app. simpl.
    destruct (Nat.eqb_spec (length cur + 1) bs) as [E|E]; simpl.
    + rewrite IH by (simpl; lia). simpl.
      replace (length cur + S (length l)) with (bs + length l) by lia.
      now rewrite ceil_div_add_step.
    + rewrite IH by (rewrite length_app; simpl; lia).
      rewrite length_app. simpl. f_equal. lia.
Qed.

Lemma batch_sampler_shape (bs : nat) (cur l : list nat) :
  0 < bs -> length cur < bs ->
  forall j b, batch_sampler bs cur l !! j = Some b ->
    0 < length b <= bs /\
    (S j < length (batch_sampler bs cur l) -> length b = bs).
Proof.
  intros Hb. revert cur. induction l as [|i l IH]; intros cur Hc j b Hj;
    simpl in *.
  - destruct cur as [|c cur]; [discriminate|].
    destruct j; [|discriminate]. injection Hj as <-. simpl in *. lia.
  - destruct (Nat.eqb_spec (length (cur ++ [i])) bs) as [E|E].
    + destruct j as [|j]; simpl in *.
      * injection Hj as <-. lia.
      * destruct (IH [] ltac:(simpl; lia) j b Hj) as [H1 H2].
        split; [assumption|]. intros H. apply H2. lia.
    + rewrite length_app in E. simpl in E.
      apply (IH (cur ++ [i])); [rewrite length_app; simpl; lia|assumption].
Qed.

(** X3: The loaders cut an index list of length [len] into [ceil(len / bs)]
    batches that concatenate back to the list; no batch is empty or longer
    than [bs], and every batch before the last has exactly [bs] items. *)
Theorem batches_partition_the_indices (bs : nat) (l : list nat) :
  0 < bs ->
  concat (batch_sampler bs [] l) = l /\
  length (batch_sampler bs [] l) = ceil_div (length l) bs /\
  forall j b, batch_sampler bs [] l !! j = Some b ->
    0 < length b <= bs /\
    (S j < length (batch_sampler bs [] l) -> length b = bs).
Proof.
  intros Hb. split; [apply batch_sampler_concat|]. split.
  - now rewrite batch_sampler_count.
  - now apply batch_sampler_shape.
Qed.

Lemma batches_partition_witness :
  concat (batch_sampler 3 [] [5; 1; 4; 2; 0; 6; 3]) = [5; 1; 4; 2; 0; 6; 3] /\
  length (batch_sampler 3 [] [5; 1; 4; 2; 0; 6; 3])
  = ceil_div (length [5; 1; 4; 2; 0; 6; 3]) 3 /\
  forall j b, batch_sampler 3 [] [5; 1; 4; 2; 0; 6; 3] !! j = Some b ->
    0 < length b <= 3 /\
    (S j < length (batch_sampler 3 [] [5; 1; 4; 2; 0; 6; 3]) -> length b = 3).
Proof.
  apply (batches_partition_the_indices 3 [5; 1; 4; 2; 0; 6; 3]). lia.
Defined.

(** ** The wrapper and the module it wraps *)

Lemma Module_nested_ind (P : Module -> Prop) :
  (forall i o w b, P (Linear i o w b)) ->
  P ReLU ->
  (forall q, P (Dropout q)) ->
  (forall ms, Forall P ms -> P (Sequential ms)) ->
  (forall m, P m -> P (DistributedDataParallel m)) ->
  forall m, P m.
Proof.
  intros HL HR HD HS HW. fix IH 1. intros [i o w b| |q|ms|m].
  - apply HL.
  - apply HR.
  - apply HD.
  - apply HS. induction ms as [|c ms IHms]; constructor;
      [apply IH | exact IHms].
  - apply HW, IH.
Qed.

Lemma string_append_assoc (a b c : string) :
  String.append (String.append a b) c = String.append a (String.append b c).
Proof. induction a as [|x a IH]; simpl; [reflexivity|now rewrite IH]. Qed.

Lemma revapp_nonnil (d d' : Decimal.uint) :
  d' <> Decimal.Nil -> Decimal.revapp d d' <> Decimal.Nil.
Proof.
  revert d'. induction d; intros d' Hd'; simpl; try assumption;
    apply IHd; discriminate.
Qed.

Lemma to_little_uint_nonnil (k : nat) (acc : Decimal.uint) :
  acc <> Decimal.Nil -> Nat.to_little_uint k acc <> Decimal.Nil.
Proof.
  revert acc. induction k as [|k IH]; intros acc Ha; simpl; [assumption|].
  apply IH. destruct acc; simpl; discriminate.
Qed.

Lemma index_name_nonempty (k : nat) : index_name k <> EmptyString.
Proof.
  unfold index_name, Nat.to_uint, Decimal.rev.
  pose proof (to_little_uint_nonnil k Decimal.zero ltac:(discriminate)) as H.
  destruct (Nat.to_little_uint k Decimal.zero) as [|d|d|d|d|d|d|d|d|d|d];
    [contradiction|..]; simpl;
    (pose proof (revapp_nonnil d) as Hr;
     match goal with
     | |- context [Decimal.revapp d ?acc] =>
         specialize (Hr acc ltac:(discriminate));
         destruct (Decimal.revapp d acc); [contradiction|..]; discriminate
     end).
Qed.

Definition prefixed (p : string) (x : string * nat) : string * nat :=
  (String.append p (String.append "." (fst x)), snd x).

Lemma join_name_nonempty (p name : string) :
  p <> EmptyString ->
  join_name p name = String.append p (String.append "." name).
Proof. destruct p; [contradiction|reflexivity]. Qed.

Lemma append_nonempty (a b : string) :
  a <> EmptyString -> String.append a b <> EmptyString.
Proof. destruct a; [contradiction|discriminate]. Qed.

Lemma prefixed_prefixed (p q : string) (l : list (string * nat)) :
  map (prefixed p) (map (prefixed q) l)
  = map (prefixed (String.append p (String.append "." q))) l.
Proof.
  rewrite map_map. apply map_ext. intros [name i]. unfold prefixed. simpl.
  now rewrite !string_append_assoc.
Qed.

(** Under a non-empty prefix the parameters of a module are those it has
    under the empty prefix, each name behind the prefix and a dot. *)
Lemma named_parameters_prefix (m : Module) :
  forall p, p <> EmptyString ->
    named_parameters p m = map (prefixed p) (named_parameters "" m).
Proof.
  induction m as [i o w b| |q|ms IH|m IH] using Module_nested_ind;
    intros p Hp.
  - simpl. rewrite !(join_name_nonempty p) by assumption.
    destruct b; reflexivity.
  - reflexivity.
  - reflexivity.
  - simpl. generalize 0 as k.
    induction IH as [|c ms Hc _ IHms]; intros k; simpl; [reflexivity|].
    rewrite map_app, IHms. f_equal.
    rewrite (join_name_nonempty p) by assumption.
    rewrite (Hc (String.append p (String.append "." (index_name k))))
      by now apply append_nonempty.
    rewrite (Hc (index_name k)) by apply index_name_nonempty.
    now rewrite prefixed_prefixed.
  - simpl. rewrite (join_name_nonempty p) by assumption.
    rewrite (IH (String.append p (String.append "." "module")))
      by now apply append_nonempty.
    rewrite (IH "module"%string) by discriminate.
    now rewrite prefixed_prefixed.
Qed.

(** X8: Wrapping a module, whatever its structure, adds no parameter and renames
    none away: the wrapper has the parameter tensors of the module, in the
    same order, each under the module's name for it behind [module.]  -- so
    the optimizer built over the wrapper's parameters on line 71 steps
    exactly the tensors of the module that line 114 returns, and the two
    state dicts hold the same tensors under different keys. *)
Theorem wrapper_shares_parameters {num : Type} (m : Module)
  (st : list (Tensor (num := num))) :
  parameters (DistributedDataParallel m) = parameters m /\
  map fst (named_parameters "" (DistributedDataParallel m))
  = map (String.append "module.") (map fst (named_parameters "" m)) /\
  map snd (state_dict (DistributedDataParallel m) st)
  = map snd (state_dict m st).
Proof.
  assert (E : named_parameters "" (DistributedDataParallel m)
              = map (prefixed "module") (named_parameters "" m)).
  { simpl. now apply named_parameters_prefix. }
  split; [|split].
  - unfold parameters. rewrite E, map_map. reflexivity.
  - rewrite E, !map_map. reflexivity.
  - unfold state_dict. rewrite E. clear E.
    induction (named_parameters "" m) as [|[name i] l IH]; [reflexivity|].
    simpl in *. destruct (st !! i); simpl; [f_equal|]; exact IH.
Qed.

(** ** The trace of the script, epoch by epoch *)

Section ScriptTrace.
Context {num : Type} {AR : Arith num} `{FW : Framework num}.

Lemma run_epoch_script_trace (n t i : nat) (ws ws' : list Worker) (k : nat)
  (w' : Worker) :
  script_group n t ws -> run_epoch i ws = Some ws' -> ws' !! k = Some w' ->
  exists w tl vl,
    ws !! k = Some w /\
    trace (proc w') = trace (proc w) ++ epoch_events i tl vl /\
    script_epoch n t (length ws) k (i, (tl, vl)).
Proof.
  intros Hg Hr Hk.
  destruct (run_epoch_summary i ws ws' k w' Hr Hk)
    as (w & tl & wt & Hw & Hb & Htr & Hel & Hs & ->).
  destruct (Hg k w Hw) as (_ & _ & _ & Htest & _).
  destruct Hs as (_ & _ & S3 & _).
  rewrite begin_epoch_eq in S3. simpl in S3. rewrite Htest in S3.
  exists w, tl,
    (map (fun b => (b, eval_forward (store (proc wt)) b))
         (fst (loader_iter (test_loader wt) (generator (proc wt))))).
  split; [assumption|]. split.
  - unfold print_epoch. rewrite validate_eq. simpl.
    rewrite Htr, Hel. unfold epoch_events. now rewrite <- !app_assoc.
  - unfold script_epoch. simpl. split; [|split].
    + rewrite Hb. apply (script_worker_batches n t (length ws) k i w (Hg k w Hw)).
    + rewrite map_map. simpl. rewrite map_id.
      pose proof (loader_iter_covers (test_loader wt) (generator (proc wt))) as Hc.
      rewrite S3 in *. now apply Hc.
    + rewrite length_map, S3. unfold loader_iter. simpl.
      destruct (draw_seed _) as [sd g']. simpl.
      rewrite batch_sampler_count by (simpl; lia). simpl.
      now rewrite (Permutation_length (randperm_perm sd t)), length_seq.
Qed.

Lemma run_epochs_script_trace (n t : nat) (todo : list nat)
  (ws ws' : list Worker) (k : nat) (w' : Worker) :
  script_group n t ws -> run_epochs todo ws = Some ws' -> ws' !! k = Some w' ->
  exists w eps,
    ws !! k = Some w /\ map fst eps = todo /\
    Forall (script_epoch n t (length ws) k) eps /\
    trace (proc w') = trace (proc w) ++ events_of_epochs eps.
Proof.
  revert ws. induction todo as [|i todo IH]; intros ws Hg Hr Hk; simpl in Hr.
  - injection Hr as <-. exists w', []. unfold events_of_epochs. simpl.
    rewrite app_nil_r. repeat split; [assumption|constructor].
  - destruct (run_epoch_script_group n t i ws Hg) as (ws1 & E & Hlen & Hg1).
    rewrite E in Hr.
    destruct (IH ws1 Hg1 Hr Hk) as (w1 & eps & Hw1 & Hm & HF & Htr).
    destruct (run_epoch_script_trace n t i ws ws1 k w1 Hg E Hw1)
      as (w & tl & vl & Hw & Htr1 & He).
    exists w, ((i, (tl, vl)) :: eps).
    split; [assumption|]. split; [simpl; now rewrite Hm|].
    split; [constructor; [assumption|now rewrite <- Hlen]|].
    rewrite Htr, Htr1. unfold events_of_epochs. simpl.
    now rewrite <- app_assoc.
Qed.

Lemma setup_script_trace (n t : nat) (ls : list Launch) (k : nat) (w : Worker) :
  setup (script_args n t ls) !! k = Some w -> trace (proc w) = [].
Proof.
  unfold setup. rewrite map_fmap, list_lookup_fmap.
  unfold script_args at 2. rewrite list_lookup_imap.
  destruct (ls !! k); [|discriminate]. intros H. now injection H as <-.
Qed.

(** The trace of every process of the script: ten epochs, numbered 0 to 9,
    each as [script_epoch] describes, then the write on rank 0. *)
Lemma script_trace (n t : nat) (ls : list Launch) :
  exists ps,
    script n t ls = Some ps /\ length ps = length ls /\
    forall k p, ps !! k = Some p ->
      exists eps,
        map fst eps = seq 0 10 /\
        Forall (script_epoch n t (length ls) k) eps /\
        trace p
        = events_of_epochs eps
          ++ (if k =? 0
              then [Save "model.pt" (state_dict create_model (store p))]
              else []).
Proof.
  destruct (script_process n t ls) as (ws & ps & Hr & Hs & Hlen & Hp).
  exists ps. split; [assumption|]. split; [assumption|].
  intros k p Hk. destruct (Hp k p Hk) as (w & Hw & _ & ->).
  assert (Hl0 : length (setup (script_args n t ls)) = length ls).
  { unfold setup, script_args. now rewrite length_map, length_imap. }
  destruct (run_epochs_script_trace n t (seq 0 10) _ ws k w
              (setup_script_group n t ls) Hr Hw)
    as (w0 & eps & Hw0 & Hm & HF & Htr).
  rewrite (setup_script_trace n t ls k w0 Hw0) in Htr. simpl in Htr.
  rewrite Hl0 in HF.
  exists eps. split; [assumption|]. split; [assumption|].
  simpl. now rewrite Htr.
Qed.

End ScriptTrace.

Section ScriptCounts.
Context {num : Type} {AR : Arith num} `{FW : Framework num}.

Lemma omap_training_events {B} (f : Event (num := num) -> option B)
  (tl : list (list nat * num)) :
  f Backward = None -> f Step = None ->
  omap f (training_events tl)
  = omap (fun x => f (Forward true (fst x) (snd x))) tl.
Proof.
  intros Hb Hs. induction tl as [|x tl IH]; [reflexivity|].
  change (training_events (x :: tl))
    with ([Forward true (fst x) (snd x); Backward; Step] ++ training_events tl).
  rewrite omap_app, IH. simpl. rewrite Hb, Hs.
  now destruct (f (Forward true (fst x) (snd x))).
Qed.

Lemma omap_validation_events {B} (f : Event (num := num) -> option B)
  (vl : list (list nat * num)) :
  omap f (validation_events vl)
  = omap (fun x => f (Forward false (fst x) (snd x))) vl.
Proof.
  induction vl as [|x vl IH]; [reflexivity|].
  change (validation_events (x :: vl))
    with ([Forward false (fst x) (snd x)] ++ validation_events vl).
  rewrite omap_app, IH. simpl.
  now destruct (f (Forward false (fst x) (snd x))).
Qed.

Lemma omap_Some_map {A B} (g : A -> B) (l : list A) :
  omap (fun x => Some (g x)) l = map g l.
Proof.
  induction l as [|x l IH]; [reflexivity|].
  change (omap (fun x => Some (g x)) (x :: l))
    with (g x :: omap (fun x => Some (g x)) l).
  now rewrite IH.
Qed.

Lemma omap_None {A B} (l : list A) : omap (fun _ => @None B) l = [].
Proof. induction l as [|x l IH]; simpl; [reflexivity|exact IH]. Qed.

Lemma printed_epoch_events (i : nat) (tl vl : list (list nat * num)) :
  omap printed_epoch (epoch_events i tl vl) = [i].
Proof.
  unfold epoch_events. rewrite !omap_app.
  rewrite omap_training_events, omap_validation_events by reflexivity.
  simpl. now rewrite !omap_None.
Qed.

Lemma training_batch_events (i : nat) (tl vl : list (list nat * num)) :
  omap training_batch (epoch_events i tl vl) = map fst tl.
Proof.
  unfold epoch_events. rewrite !omap_app.
  rewrite omap_training_events, omap_validation_events by reflexivity.
  simpl. rewrite omap_None, omap_Some_map, !app_nil_r. reflexivity.
Qed.

Lemma validation_batch_events (i : nat) (tl vl : list (list nat * num)) :
  omap validation_batch (epoch_events i tl vl) = map fst vl.
Proof.
  unfold epoch_events. rewrite !omap_app.
  rewrite omap_training_events, omap_validation_events by reflexivity.
  simpl. rewrite omap_None, omap_Some_map, !app_nil_r. reflexivity.
Qed.

Lemma omap_events_of_epochs {B} (f : Event (num := num) -> option B)
  (g : nat * (list (list nat * num) * list (list nat * num)) -> list B)
  (eps : list (nat * (list (list nat * num) * list (list nat * num)))) :
  (forall i tl vl, omap f (epoch_events i tl vl) = g (i, (tl, vl))) ->
  omap f (events_of_epochs eps) = concat (map g eps).
Proof.
  intros Hf. unfold events_of_epochs.
  induction eps as [|[i [tl vl]] eps IH]; simpl; [reflexivity|].
  rewrite omap_app, Hf. simpl in IH. now rewrite IH.
Qed.

Lemma steps_of_epochs (c : nat)
  (eps : list (nat * (list (list nat * num) * list (list nat * num)))) :
  Forall (fun x => length (fst (snd x)) = c) eps ->
  length (List.filter is_step (events_of_epochs eps)) = length eps * c.
Proof.
  unfold events_of_epochs.
  induction 1 as [|[i [tl vl]] eps Hx _ IH]; simpl; [reflexivity|].
  rewrite List.filter_app, length_app, IH. f_equal.
  unfold epoch_events. rewrite !List.filter_app, !length_app.
  rewrite training_events_steps. simpl in Hx. rewrite Hx.
  assert (E : List.filter is_step (validation_events vl) = []).
  { clear. induction vl as [|x vl IH]; simpl; [reflexivity|exact IH]. }
  rewrite E. simpl. lia.
Qed.

Lemma save_tail_read {B} (f : Event (num := num) -> option B) (k : nat)
  (sd : list (string * Tensor)) :
  (forall file sd', f (Save file sd') = None) ->
  omap f (if k =? 0 then [Save "model.pt" sd] else []) = [].
Proof. intros Hf. destruct (k =? 0); simpl; [now rewrite Hf|reflexivity]. Qed.

(** X5: Every process of the script takes the same number of optimizer steps,
    ten times the number of batches of one partition:
    [10 * ceil(ceil(n / w) / 128)] for [n] training items and [w]
    processes. *)
Theorem script_optimizer_steps (n t : nat) (ls : list Launch) :
  exists ps,
    script n t ls = Some ps /\ length ps = length ls /\
    forall k p, ps !! k = Some p ->
      length (List.filter is_step (trace p))
      = 10 * ceil_div (ceil_div n (length ls)) 128.
Proof.
  destruct (script_trace n t ls) as (ps & Hs & Hlen & Hp).
  exists ps. split; [assumption|]. split; [assumption|].
  intros k p Hk. destruct (Hp k p Hk) as (eps & Hm & HF & ->).
  pose proof (lookup_lt_Some _ _ _ Hk) as Hlt. rewrite Hlen in Hlt.
  rewrite List.filter_app, length_app.
  rewrite (steps_of_epochs (ceil_div (ceil_div n (length ls)) 128)).
  - replace (length eps) with 10
      by (rewrite <- (length_map fst eps), Hm; reflexivity).
    destruct (k =? 0); simpl; lia.
  - eapply Forall_impl; [exact HF|].
    intros [i [tl vl]] (Htl & _). simpl in *.
    rewrite <- (length_map fst tl), Htl.
    rewrite batch_sampler_count by (simpl; lia). simpl.
    rewrite epoch_indices_length by lia. reflexivity.
Qed.

(** X7: Every process prints exactly one line per epoch, for the epochs 0 to 9
    in this order. *)
Theorem script_prints_each_epoch (n t : nat) (ls : list Launch) :
  exists ps,
    script n t ls = Some ps /\ length ps = length ls /\
    forall k p, ps !! k = Some p ->
      omap printed_epoch (trace p) = seq 0 10.
Proof.
  destruct (script_trace n t ls) as (ps & Hs & Hlen & Hp).
  exists ps. split; [assumption|]. split; [assumption|].
  intros k p Hk. destruct (Hp k p Hk) as (eps & Hm & _ & ->).
  rewrite omap_app, save_tail_read, app_nil_r by reflexivity.
  rewrite (omap_events_of_epochs printed_epoch (fun x => [fst x]))
    by apply printed_epoch_events.
  rewrite <- Hm. clear. induction eps as [|x eps IH]; simpl; [reflexivity|].
  now rewrite IH.
Qed.

(** X4: The training items the process of rank [k] forwards over the whole run
    are its partitions for the epochs 0 to 9, one after the other, each in
    the sampler's order: batching regroups the indices and nothing else. *)
Theorem script_trains_on_its_partitions (n t : nat) (ls : list Launch) :
  exists ps,
    script n t ls = Some ps /\ length ps = length ls /\
    forall k p, ps !! k = Some p ->
      concat (omap training_batch (trace p))
      = concat (map (fun i => epoch_indices (new_sampler n (length ls) k 42) i)
                    (seq 0 10)).
Proof.
  destruct (script_trace n t ls) as (ps & Hs & Hlen & Hp).
  exists ps. split; [assumption|]. split; [assumption|].
  intros k p Hk. destruct (Hp k p Hk) as (eps & Hm & HF & ->).
  rewrite omap_app, save_tail_read, app_nil_r by reflexivity.
  rewrite (omap_events_of_epochs training_batch (fun x => map fst (fst (snd x))))
    by apply training_batch_events.
  rewrite <- Hm. clear Hm Hk Hp Hs Hlen.
  induction HF as [|[i [tl vl]] eps (Htl & _) _ IH]; simpl; [reflexivity|].
  rewrite concat_app. simpl in *. rewrite IH, Htl.
  now rewrite batch_sampler_concat.
Qed.

(** X6: Validation is not partitioned: every process, whatever its rank and the
    number of processes, evaluates every test item once per epoch, ten times
    in the run, in [ceil(t / 128)] batches per epoch. *)
Theorem script_validates_whole_test_set (n t : nat) (ls : list Launch) :
  exists ps,
    script n t ls = Some ps /\ length ps = length ls /\
    forall k p, ps !! k = Some p ->
      Permutation (concat (omap validation_batch (trace p)))
                  (concat (repeat (seq 0 t) 10)) /\
      length (omap validation_batch (trace p)) = 10 * ceil_div t 128.
Proof.
  destruct (script_trace n t ls) as (ps & Hs & Hlen & Hp).
  exists ps. split; [assumption|]. split; [assumption|].
  intros k p Hk. destruct (Hp k p Hk) as (eps & Hm & HF & ->).
  rewrite omap_app, save_tail_read, app_nil_r by reflexivity.
  rewrite (omap_events_of_epochs validation_batch (fun x => map fst (snd (snd x))))
    by apply validation_batch_events.
  assert (Hl : length eps = 10)
    by (rewrite <- (length_map fst eps), Hm; reflexivity).
  unfold script_epoch in HF. remember (ceil_div t 128) as c eqn:Ec.
  assert (H : Permutation
                (concat (concat (map (fun x => map fst (snd (snd x))) eps)))
                (concat (repeat (seq 0 t) (length eps))) /\
              length (concat (map (fun x => map fst (snd (snd x))) eps))
              = length eps * c).
  { clear Hm Hk Hp Hs Hlen Hl Ec.
    induction HF as [|[i [tl vl]] eps (_ & Hvl & Hc) _ [IH1 IH2]];
      [split; [constructor|reflexivity]|].
    cbn [map concat repeat length fst snd] in *. split.
    - rewrite concat_app. now apply Permutation_app.
    - rewrite length_app, length_map, IH2, Hc. lia. }
  now rewrite Hl in H.
Qed.

End ScriptCounts.

Example script_counts_300_items_2_workers :
  option_map
    (map (fun p => (length (List.filter is_step (trace p)),
                    omap printed_epoch (trace p),
                    length (omap validation_batch (trace p)))))
    (script (num := float) (FW := bowl) 300 130
       [example_launch 0 0 3%float; example_launch 1 5 2%float])
  = Some [(20, seq 0 10, 20); (20, seq 0 10, 20)].
Proof. vm_compute. reflexivity. Qed.

(** ** What the checkpoint holds, and what it does not depend on *)

Section FinalState.
Context {num : Type} {AR : Arith num} `{FW : Framework num}.

Lemma script_args_model (n t : nat) (ls : list (Launch (num := num)))
  (a : MainArgs) :
  In a (script_args n t ls) -> arg_model a = create_model.
Proof.
  intros Ha. apply list_elem_of_In, list_elem_of_lookup in Ha as [k Hk].
  unfold script_args in Hk. rewrite list_lookup_imap in Hk.
  destruct (ls !! k); [|discriminate]. now injection Hk as <-.
Qed.

Lemma script_args_lookup (n t : nat) (ls : list (Launch (num := num)))
  (k : nat) :
  script_args n t ls !! k
  = (fun l =>
       {| arg_proc := {| local_rank := launch_local_rank l; proc_rank := k;
                         store := initial_store (launch_init l);
                         generator := launch_generator l; trace := [] |};
          arg_model := create_model;
          arg_train_loader := fst (fst (create_data_loaders 128 n t (length ls) k));
          arg_test_loader := snd (fst (create_data_loaders 128 n t (length ls) k)) |})
    <$> ls !! k.
Proof. unfold script_args. now rewrite list_lookup_imap. Qed.

(** X9: When the script ends, every process holds the same parameter tensors,
    and they are the tensors of the checkpoint rank 0 wrote: the replicas
    that are not saved carry nothing the file lacks. *)
Theorem checkpoint_is_every_replica (n t : nat) (ls : list Launch) :
  exists ps,
    script n t ls = Some ps /\ length ps = length ls /\
    forall k p p0, ps !! k = Some p -> ps !! 0 = Some p0 ->
      store p = store p0 /\
      exists pre sd,
        trace p0 = pre ++ [Save "model.pt" sd] /\ map snd sd = store p.
Proof.
  destruct (script_process n t ls) as (ws & ps & Hr & Hs & Hlen & Hp).
  exists ps. split; [assumption|]. split; [assumption|].
  intros k p p0 Hk H0.
  destruct (Hp k p Hk) as (w & Hw & _ & ->).
  destruct (Hp 0 p0 H0) as (w0 & Hw0 & Hsw0 & ->).
  assert (Hagree : replicas_agree ws).
  { apply (reachable_agree (script_args n t ls) create_model).
    - apply script_args_model.
    - apply (run_epochs_reachable _ _ _ _ Hr). constructor. }
  assert (E : store (proc w) = store (proc w0)).
  { apply Hagree; apply list_elem_of_In; eapply list_elem_of_lookup_2; eassumption. }
  simpl. split; [exact E|].
  destruct Hsw0 as (_ & _ & _ & _ & Hst & _).
  destruct (state_dict_create_model (store (proc w0)) Hst)
    as (t0 & t1 & t2 & t3 & t4 & Est & Esd).
  exists (trace (proc w0)), (state_dict create_model (store (proc w0))).
  split; [reflexivity|]. rewrite E, Esd, Est. reflexivity.
Qed.

(** X10: The initial tensors [create_model] draws on the ranks other than 0 are
    discarded when the model is wrapped: two launches that agree on the
    devices and generator states of all processes and on the initial tensors
    of rank 0 run identically, checkpoint included. *)
Theorem other_ranks_initial_weights_are_discarded (n t : nat)
  (ls1 ls2 : list Launch) :
  Forall2 (fun a b => launch_local_rank a = launch_local_rank b /\
                      launch_generator a = launch_generator b) ls1 ls2 ->
  launch_init <$> head ls1 = launch_init <$> head ls2 ->
  script n t ls1 = script n t ls2.
Proof.
  intros HF Hh.
  assert (E : setup (script_args n t ls1) = setup (script_args n t ls2)).
  { unfold setup. apply list_eq. intros k.
    rewrite !map_fmap, !list_lookup_fmap.
    assert (Hst : (fun a => store (arg_proc a)) <$> head (script_args n t ls1)
                  = (fun a => store (arg_proc a)) <$> head (script_args n t ls2)).
    { unfold script_args. destruct HF as [|a b l1 l2 _ _]; [reflexivity|].
      simpl in *. injection Hh as ->. reflexivity. }
    rewrite Hst, !script_args_lookup.
    rewrite (Forall2_length _ _ _ HF).
    destruct (ls1 !! k) as [a|] eqn:Ea.
    - destruct (Forall2_lookup_l _ _ _ _ _ HF Ea) as (b & Eb & Hr & Hg).
      rewrite Eb. simpl. rewrite Hr, Hg.
      destruct ls2 as [|b0 l2]; [discriminate|]. reflexivity.
    - assert (ls2 !! k = None) as ->; [|reflexivity].
      apply lookup_ge_None. rewrite <- (Forall2_length _ _ _ HF).
      now apply lookup_ge_None. }
  unfold script, main. now rewrite E.
Qed.

End FinalState.

Lemma other_ranks_initial_weights_witness :
  script (num := float) (FW := bowl) 6 3
    [example_launch 0 0 3%float; example_launch 1 5 2%float]
  = script (num := float) (FW := bowl) 6 3
      [example_launch 0 0 3%float; example_launch 1 5 7%float].
Proof.
  apply (other_ranks_initial_weights_are_discarded (FW := bowl) 6 3
           [example_launch 0 0 3%float; example_launch 1 5 2%float]
           [example_launch 0 0 3%float; example_launch 1 5 7%float]).
  - repeat constructor.
  - reflexivity.
Defined.

(** ** Which items a rank draws *)

Lemma padded_indices_head `{RS : RandomSource} (n w sd e : nat) :
  0 < w -> w <= n ->
  padded_indices (set_epoch (new_sampler n w 0 sd) e)
  = randperm (sd + e) n
    ++ firstn (ceil_div n w * w - n) (randperm (sd + e) n).
Proof.
  intros Hw Hn.
  assert (Hpad : ceil_div n w * w - n < w).
  { unfold ceil_div.
    pose proof (Nat.div_mod (n + w - 1) w ltac:(lia)).
    pose proof (Nat.mod_upper_bound (n + w - 1) w ltac:(lia)). nia. }
  unfold padded_indices. simpl. unfold total_size, num_samples. simpl.
  rewrite (Permutation_length (randperm_perm (sd + e) n)), length_seq.
  destruct (Nat.leb_spec (ceil_div n w * w - n) n); [reflexivity|lia].
Qed.

(** X2: The split among the ranks is by stride, not by contiguous chunks: the
    [k]-th item of rank [r] is entry [r + k * w] of the epoch's permutation,
    wrapping around to its head past the end. *)
Theorem partition_is_strided `{RS : RandomSource} (n w sd e r k : nat) :
  0 < w -> w <= n -> r < w -> k < ceil_div n w ->
  epoch_indices (new_sampler n w r sd) e !! k
  = randperm (sd + e) n
    !! (if r + k * w <? n then r + k * w else r + k * w - n)
  /\ (if r + k * w <? n then r + k * w else r + k * w - n) < n.
Proof.
  intros Hw Hn Hr Hk.
  pose proof (Permutation_length (randperm_perm (sd + e) n)) as Hlen.
  rewrite length_seq in Hlen.
  assert (Hpad : ceil_div n w * w - n < w).
  { unfold ceil_div.
    pose proof (Nat.div_mod (n + w - 1) w ltac:(lia)).
    pose proof (Nat.mod_upper_bound (n + w - 1) w ltac:(lia)). nia. }
  pose proof (ceil_div_mul_ge n w Hw) as Hge.
  rewrite epoch_indices_unfold, every_nth_lookup by assumption.
  rewrite padded_indices_head by assumption.
  destruct (Nat.ltb_spec (r + k * w) n) as [Hlt|Hge'].
  - split; [|assumption]. now rewrite lookup_app_l by lia.
  - split; [|nia].
    rewrite lookup_app_r by lia. rewrite Hlen.
    apply lookup_take_lt. nia.
Qed.

Lemma partition_is_strided_witness :
  epoch_indices (RS := rotation_source) (new_sampler 7 3 2 42) 0 !! 2
  = rotation 42 7 !! (if 2 + 2 * 3 <? 7 then 2 + 2 * 3 else 2 + 2 * 3 - 7)
  /\ (if 2 + 2 * 3 <? 7 then 2 + 2 * 3 else 2 + 2 * 3 - 7) < 7.
Proof.
  apply (partition_is_strided (RS := rotation_source) 7 3 42 0 2 2);
    [lia | lia | lia | vm_compute; lia].
Defined.

(** ** [main] over an empty train loader *)





Section EmptyTrainLoader.
Context {num : Type} {AR : Arith num} `{FW : Framework num}.






End EmptyTrainLoader.


Example main_on_empty_train_loader_run :
  option_map (map (fun r => (store (snd r), trace (snd r))))
    (main (FW := bowl) 1
       [example_empty_args 2 3 2 0 0 3%float;
        example_empty_args 2 3 2 1 5 7%float])
  = Some [([[3%float]; []; []; []; []],
           [Forward false [0; 1] 9%float; Forward false [2] 9%float;
            Print 0 0%float 13.5%float]);
          ([[3%float]; []; []; []; []],
           [Forward false [2; 0] 9%float; Forward false [1] 9%float;
            Print 0 0%float 13.5%float])].
Proof. vm_compute. reflexivity. Qed.
